(** * watermark.py: a shallow embedding and its verified properties

    The program stamps a rotated, semi-transparent text watermark on every
    image of a directory tree.  This development embeds [watermark.py] in
    Rocq and proves what its natural-language specification says about it.

    - Python [int] is [Z]; Python [float] is IEEE 754 binary64, here the
      primitive [float] of the Standard Library, whose operations are
      specified by [SpecFloat];
    - Python [str] is [string] (the bytes of its UTF-8 encoding);
    - a raised exception is the [Raise] branch of [result];
    - Pillow, pathlib, argparse, the console and the file system are
      collaborators: what they compute from data the program does not
      control (glyph metrics, the canvas of a rotated image, the command
      line, which files exist, which calls fail) is read from an
      environment record [Env]; what the program relies on (sizes, modes,
      the order of the calls) is modelled explicitly;
    - a generator is the list of what it yields and the exception that
      ends it; the [for] statement of [main] draws from it one item at a
      time, so what the scan raises comes after the files before it are
      processed. *)

From Stdlib Require Import ZArith List String Ascii Bool Floats Lia DecimalString.
Import ListNotations.

#[local] Set Warnings "-inexact-float".
#[local] Open Scope string_scope.
#[local] Open Scope Z_scope.

(* ================================================================= *)
(** ** Exceptions and fallible computations *)

(** The subclasses of Python's [Exception] that the modelled calls raise,
    each with the text [str(e)] gives. *)
Inductive exn : Type :=
| ValueError (msg : string)
| OverflowError (msg : string)
| OSError (msg : string)
| RuntimeError (msg : string).

Definition exn_str (e : exn) : string :=
  match e with
  | ValueError m | OverflowError m | OSError m | RuntimeError m => m
  end.

Inductive result (A : Type) : Type :=
| Ok (a : A)
| Raise (e : exn).
Arguments Ok {A} a.
Arguments Raise {A} e.

Definition bind {A B : Type} (r : result A) (k : A -> result B) : result B :=
  match r with
  | Ok a => k a
  | Raise e => Raise e
  end.

Notation "x <- c ;; k" := (bind c (fun x => k))
  (at level 61, c at next level, right associativity).
Notation "' pat <- c ;; k" := (bind c (fun x => match x with pat => k end))
  (at level 61, pat pattern, c at next level, right associativity).


(* ================================================================= *)
(** ** Python numbers *)

Module PyFloat.

(** [float(z)]: the nearest binary64 number, ties to even;
    [OverflowError] when [z] is out of range. *)
Definition of_int (z : Z) : result float :=
  let f := SF2Prim (binary_normalize prec emax z 0 false) in
  if is_infinity f
  then Raise (OverflowError "int too large to convert to float")
  else Ok f.

(** The integer a finite [spec_float] truncates to (toward zero). *)
Definition trunc_finite (s : bool) (m : positive) (e : Z) : Z :=
  let v := if 0 <=? e then Z.pos m * 2 ^ e else Z.pos m / 2 ^ (- e) in
  if s then - v else v.

(** [int(x)]: truncation toward zero; [ValueError] on NaN,
    [OverflowError] on an infinity. *)
Definition to_int (x : float) : result Z :=
  match Prim2SF x with
  | S754_zero _ => Ok 0
  | S754_finite s m e => Ok (trunc_finite s m e)
  | S754_infinity _ =>
      Raise (OverflowError "cannot convert float infinity to integer")
  | S754_nan => Raise (ValueError "cannot convert float NaN to integer")
  end.

(** [z * x] for an [int] z and a [float] x: z is converted first. *)
Definition int_mul (z : Z) (x : float) : result float :=
  f <- of_int z ;; Ok (f * x)%float.

(** [z] is an integer nearest to [x]: [|x - z| <= 1/2], whatever the rule
    for ties.  This is the reading of the specification's [round]. *)
Definition nearest_int (x : float) (z : Z) : Prop :=
  match Prim2SF x with
  | S754_zero _ => z = 0
  | S754_finite s m e =>
      let v := if s then Z.neg m else Z.pos m in
      if 0 <=? e then z = v * 2 ^ e
      else 2 * Z.abs (v - z * 2 ^ (- e)) <= 2 ^ (- e)
  | _ => False
  end.

(** Python's own [round(x)]: nearest integer, ties to the even one. *)
Definition round (x : float) : result Z :=
  match Prim2SF x with
  | S754_zero _ => Ok 0
  | S754_finite s m e =>
      let v :=
        if 0 <=? e then Z.pos m * 2 ^ e
        else
          let d := 2 ^ (- e) in
          let q := Z.pos m / d in
          match 2 * (Z.pos m mod d) ?= d with
          | Lt => q
          | Gt => q + 1
          | Eq => if Z.even q then q else q + 1
          end in
      Ok (if s then - v else v)
  | S754_infinity _ =>
      Raise (OverflowError "cannot convert float infinity to integer")
  | S754_nan => Raise (ValueError "cannot convert float NaN to integer")
  end.

End PyFloat.

(** [int(z * x)], the form of every rounding the program does. *)
Definition int_times (z : Z) (x : float) : result Z :=
  f <- PyFloat.int_mul z x ;; PyFloat.to_int f.

(* ================================================================= *)
(** ** Python strings and pathlib paths (POSIX flavour) *)

(** [s.lower()] on the ASCII letters.  Characters outside ASCII are left
    as they are; none of them lowers to a letter of [ALLOWED_EXTS]. *)
Definition lower_ascii (c : ascii) : ascii :=
  let n := nat_of_ascii c in
  if ((65 <=? n) && (n <=? 90))%nat then ascii_of_nat (n + 32) else c.

Fixpoint lower (s : string) : string :=
  match s with
  | EmptyString => EmptyString
  | String c s' => String (lower_ascii c) (lower s')
  end.

(** [s in xs] for a set or tuple of strings. *)
Definition str_in (s : string) (xs : list string) : bool :=
  existsb (String.eqb s) xs.

(** Python truthiness of an optional string: [None] and [''] are false. *)
Definition truthy (o : option string) : bool :=
  match o with
  | Some s => negb (String.eqb s "")
  | None => false
  end.

Fixpoint split_on (sep : ascii) (s : string) : list string :=
  match s with
  | EmptyString => [EmptyString]
  | String c s' =>
      if Ascii.eqb c sep then EmptyString :: split_on sep s'
      else match split_on sep s' with
           | [] => [String c EmptyString]
           | h :: t => String c h :: t
           end
  end.

Fixpoint leading_slashes (s : string) : nat :=
  match s with
  | String "/" s' => S (leading_slashes s')
  | _ => O
  end.

Fixpoint join_slash (xs : list string) : string :=
  match xs with
  | [] => ""
  | [x] => x
  | x :: xs' => x ++ "/" ++ join_slash xs'
  end.

(** A [pathlib.PurePosixPath]: its anchor (empty, one slash or two) and
    its components. *)
Record Path : Type := { anchor : string; parts : list string }.

(** [Path(s)]: empty and ['.'] components are dropped; exactly two leading
    slashes are kept, any other number of them is one. *)
Definition Path_of (s : string) : Path :=
  {| anchor := match leading_slashes s with
               | O => ""
               | 2%nat => "//"
               | _ => "/"
               end;
     parts := filter (fun c => negb (String.eqb c "" || String.eqb c "."))
                     (split_on "/" s) |}.

(** [str(p)] *)
Definition Path_str (p : Path) : string :=
  match anchor p, parts p with
  | EmptyString, [] => "."
  | a, ps => a ++ join_slash ps
  end.

(** [p.name] *)
Definition name (p : Path) : string := last (parts p) "".

(** The part of [s] from its last dot on, when it has one. *)
Fixpoint from_last_dot (s : string) : option string :=
  match s with
  | EmptyString => None
  | String c s' =>
      match from_last_dot s' with
      | Some t => Some t
      | None => if Ascii.eqb c "." then Some s else None
      end
  end.

(** [p.suffix]: with [i = name.rfind('.')], [name[i:]] when
    [0 < i < len(name) - 1], else ['']. *)
Definition suffix (p : Path) : string :=
  match name p with
  | EmptyString => ""
  | String _ rest =>
      match from_last_dot rest with
      | Some t => if (String.length t =? 1)%nat then "" else t
      | None => ""
      end
  end.

(** [p.parent] *)
Definition parent (p : Path) : Path :=
  {| anchor := anchor p; parts := removelast (parts p) |}.

(** [p / q] *)
Definition truediv (p q : Path) : Path :=
  if String.eqb (anchor q) "" then
    {| anchor := anchor p; parts := parts p ++ parts q |}
  else q.

(** [l] without its prefix [pre], when [pre] is a prefix of [l]. *)
Fixpoint strip_prefix (pre l : list string) : option (list string) :=
  match pre, l with
  | [], _ => Some l
  | a :: pre', b :: l' => if String.eqb a b then strip_prefix pre' l' else None
  | _ :: _, [] => None
  end.

(** [p.relative_to(other)]: [ValueError] unless [other] is [p] or one of
    its ancestors. *)
Definition relative_to (p other : Path) : result Path :=
  if String.eqb (anchor p) (anchor other) then
    match strip_prefix (parts other) (parts p) with
    | Some r => Ok {| anchor := ""; parts := r |}
    | None => Raise (ValueError "path is not in the subpath of the other")
    end
  else Raise (ValueError "path is not in the subpath of the other").

(** [p] lies strictly below [root], at any depth. *)
Definition below (root p : Path) : bool :=
  String.eqb (anchor p) (anchor root) &&
  match strip_prefix (parts root) (parts p) with
  | Some (_ :: _) => true
  | _ => false
  end.

(** [p] is an entry of the directory [root] itself. *)
Definition child_of (root p : Path) : bool :=
  String.eqb (anchor p) (anchor root) &&
  match strip_prefix (parts root) (parts p) with
  | Some [_] => true
  | _ => false
  end.

(* ================================================================= *)
(** ** Pillow images *)

Definition rgba : Type := (Z * Z * Z * Z)%type.

(** The argument [fill=(r, g, b, a)] of a drawing call: its alpha. *)
Definition alpha_of (c : rgba) : Z := snd c.

(** [ImageFont.truetype(path, size=size)] and [ImageFont.load_default()];
    the latter is called without a size. *)
Inductive font : Type :=
| FreeTypeFont (path : string) (size : Z)
| DefaultFont.

Inductive transpose_method : Type :=
| FLIP_LEFT_RIGHT | FLIP_TOP_BOTTOM | ROTATE_90 | ROTATE_180
| ROTATE_270 | TRANSPOSE | TRANSVERSE.

(** The pixel content of an image, as the calls that produced it. *)
Inductive pixels : Type :=
| px_file (source : Path)
| px_new (color : rgba)
| px_text (canvas : pixels) (xy : Z * Z) (text : string) (f : font)
          (fill : rgba)
| px_rotate (src : pixels) (angle : float) (fillcolor : rgba)
| px_paste (canvas src : pixels) (box : Z * Z) (mask : pixels)
| px_alpha_composite (dst src : pixels)
| px_convert (src : pixels) (mode : string)
| px_transpose (src : pixels) (method : transpose_method).

(** An [Image.Image]: [size] is (width, height), [orientation] the EXIF
    orientation tag (0x0112) when the file carries one. *)
Record Image : Type := {
  size : Z * Z;
  mode : string;
  orientation : option Z;
  content : pixels
}.

Definition width (im : Image) : Z := fst (size im).
Definition height (im : Image) : Z := snd (size im).

(** Keyword arguments of [Image.save]. *)
Inductive pyval : Type := PyInt (z : Z) | PyBool (b : bool).
Definition kwargs : Type := list (string * pyval).

(** The parameters every file of a run is watermarked with. *)
Record Params : Type := {
  text : string;
  opacity : float;
  scale : float;
  margin_ratio : float;
  font_path : option string;
  angle : float
}.

(** The namespace [parser.parse_args()] returns, lines 105-116. *)
Record Args : Type := {
  arg_input : string;
  arg_output : option string;
  arg_params : Params;
  arg_no_recursive : bool
}.

(** [parser.parse_args()] returns the arguments, or leaves the program
    through [sys.exit(status)]: with status 0 after [-h], once the help is
    printed on the standard output, or with status 2 for a command line it
    does not accept. *)
Inductive Parsed : Type :=
| ParsedArgs (args : Args)
| ParseExit (status : Z) (help : list string).

(** What the collaborators answer during one run, each at the moment it
    is asked.  Calls that are not listed as able to fail are total in this
    model. *)
Record Env : Type := {
  (* the command line *)
  parse_args : Parsed;                       (* argparse on [sys.argv] *)
  (* the console *)
  print_error : list string -> string -> option exn;
                       (* [print(line)] after the lines printed so far *)
  (* the file system *)
  fs_is_file : Path -> bool;                 (* [p.is_file()] *)
  fs_is_dir : Path -> bool;                  (* [p.is_dir()] *)
  fs_exists : Path -> bool;                  (* [p.exists()] *)
  (* the [OSError] that [stat] raises and pathlib lets through (any but
     ENOENT, ENOTDIR, EBADF, ELOOP), for the paths [main] asks about *)
  fs_exists_error : Path -> option exn;
  fs_is_dir_error : Path -> option exn;
  fs_is_file_error : Path -> option exn;
  fs_listing : list Path;           (* the paths a walk of the tree yields *)
  fs_listing_error : option exn;    (* the error that cuts the walk short *)
  fs_resolve : Path -> result Path;          (* [p.resolve()] *)
  fs_mkdir_error : Path -> option exn;       (* [p.mkdir(parents, exist_ok)] *)
  (* fonts and text *)
  truetype_error : string -> Z -> option exn;
  textbbox : font -> string -> Z * Z * Z * Z; (* left, top, right, bottom *)
  (* images *)
  rotate_size : Z * Z -> float -> Z * Z;     (* canvas of [rotate(expand)] *)
  convert_error : Image -> string -> option exn;
  open_image : Path -> result Image;         (* [Image.open(p)] *)
  save_error : Path -> Image -> kwargs -> option exn
}.

(** [Image.new(mode, size, color)]: [ValueError] on a negative size.  (A
    size that memory cannot hold is not among the failures modelled.) *)
Definition Image_new (m : string) (sz : Z * Z) (color : rgba) : result Image :=
  if (fst sz <? 0) || (snd sz <? 0)
  then Raise (ValueError "Width and height must be >= 0")
  else Ok {| size := sz; mode := m; orientation := None;
             content := px_new color |}.

(** [im.convert(mode)] *)
Definition convert (env : Env) (im : Image) (m : string) : result Image :=
  match convert_error env im m with
  | Some e => Raise e
  | None => Ok {| size := size im; mode := m; orientation := orientation im;
                  content := px_convert (content im) m |}
  end.

Definition swaps_axes (t : transpose_method) : bool :=
  match t with
  | ROTATE_90 | ROTATE_270 | TRANSPOSE | TRANSVERSE => true
  | _ => false
  end.

(** [im.transpose(method)] *)
Definition transpose (im : Image) (t : transpose_method) : Image :=
  {| size := if swaps_axes t then (height im, width im) else size im;
     mode := mode im;
     orientation := orientation im;
     content := px_transpose (content im) t |}.

(** The table of [ImageOps.exif_transpose]. *)
Definition exif_method (o : Z) : option transpose_method :=
  match o with
  | 2 => Some FLIP_LEFT_RIGHT
  | 3 => Some ROTATE_180
  | 4 => Some FLIP_TOP_BOTTOM
  | 5 => Some TRANSPOSE
  | 6 => Some ROTATE_270
  | 7 => Some TRANSVERSE
  | 8 => Some ROTATE_90
  | _ => None
  end.

(** [ImageOps.exif_transpose(im)]: the image transposed as its orientation
    tag asks, the tag removed; a copy when there is nothing to do. *)
Definition exif_transpose (im : Image) : Image :=
  match orientation im with
  | Some o =>
      match exif_method o with
      | Some t =>
          let r := transpose im t in
          {| size := size r; mode := mode r; orientation := None;
             content := content r |}
      | None => im
      end
  | None => im
  end.

(** [ImageDraw.Draw(im).text(xy, text, font=f, fill=fill)]: draws on [im]. *)
Definition draw_text (im : Image) (xy : Z * Z) (text : string) (f : font)
    (fill : rgba) : Image :=
  {| size := size im; mode := mode im; orientation := orientation im;
     content := px_text (content im) xy text f fill |}.

(** [im.rotate(angle, expand=True, resample=Image.BICUBIC, fillcolor=c)] *)
Definition rotate (env : Env) (im : Image) (angle : float) (c : rgba) : Image :=
  {| size := rotate_size env (size im) angle; mode := mode im;
     orientation := orientation im;
     content := px_rotate (content im) angle c |}.

(** [im.paste(src, (x, y), mask)]: [im] is changed in place and keeps its
    size; [src] is copied as it is and whatever falls outside is dropped. *)
Definition paste (im src : Image) (box : Z * Z) (mask : Image) : Image :=
  {| size := size im; mode := mode im; orientation := orientation im;
     content := px_paste (content im) (content src) box (content mask) |}.

(** [Image.alpha_composite(im1, im2)] *)
Definition alpha_composite (im1 im2 : Image) : result Image :=
  if negb (String.eqb (mode im1) "RGBA" && String.eqb (mode im2) "RGBA")
  then Raise (ValueError "image has wrong mode")
  else if negb ((width im1 =? width im2) && (height im1 =? height im2))
  then Raise (ValueError "images do not match")
  else Ok {| size := size im1; mode := "RGBA"; orientation := orientation im1;
             content := px_alpha_composite (content im1) (content im2) |}.

(* ================================================================= *)
(** ** watermark.py *)

Definition ALLOWED_EXTS : list string :=
  [".jpg"; ".jpeg"; ".png"; ".webp"; ".bmp"; ".tif"; ".tiff"].

Definition candidates : list string :=
  ["/System/Library/Fonts/PingFang.ttc";
   "/System/Library/Fonts/Supplemental/Arial.ttf";
   "/Library/Fonts/Arial.ttf";
   "/System/Library/Fonts/Supplemental/Arial Unicode.ttf";
   "/Library/Fonts/Arial Unicode.ttf"].

Definition find_font (env : Env) (explicit : option string) : option string :=
  match (if truthy explicit then explicit else None) with
  | Some s =>
      let p := Path_of s in
      if fs_is_file env p then Some (Path_str p)
      else find (fun c => fs_is_file env (Path_of c)) candidates
  | None => find (fun c => fs_is_file env (Path_of c)) candidates
  end.

(** The font of lines 45-48: [truetype] when a path was found and loads,
    [load_default()] otherwise. *)
Definition load_font (env : Env) (fp : option string) (sz : Z) : font :=
  match fp with
  | Some p =>
      match truetype_error env p sz with
      | None => FreeTypeFont p sz
      | Some _ => DefaultFont
      end
  | None => DefaultFont
  end.

(** The local variables of [add_text_watermark] when it reaches line 69. *)
Record Locals : Type := {
  l_img : Image;            (* after [exif_transpose] *)
  l_w : Z;
  l_h : Z;
  l_base : Image;
  l_size : Z;
  l_fp : option string;
  l_font : font;
  l_tw : Z;
  l_th : Z;
  l_margin : Z;
  l_alpha : Z;
  l_shadow_alpha : Z;
  l_padding : Z;
  l_text_img : Image;       (* after the two [tdraw.text] calls *)
  l_rotated : Image;
  l_x : Z;
  l_y : Z;
  l_txt_layer : Image;      (* after [paste] *)
  l_combined : Image
}.

(** Lines 36-69 of [add_text_watermark]. *)
Definition add_text_watermark_body (env : Env) (img0 : Image) (text : string)
    (opacity scale margin_ratio : float) (font_path : option string)
    (angle : float) : result Locals :=
  let img := exif_transpose img0 in
  let '(w, h) := size img in
  base <- convert env img "RGBA" ;;
  txt_layer <- Image_new "RGBA" (w, h) (255, 255, 255, 0) ;;
  s <- PyFloat.int_mul (Z.min w h) scale ;;
  si <- PyFloat.to_int s ;;
  let size := Z.max 12 si in
  let fp := find_font env font_path in
  let font := load_font env fp size in
  let '(b0, b1, b2, b3) := textbbox env font text in
  let tw := b2 - b0 in
  let th := b3 - b1 in
  m <- PyFloat.int_mul (Z.min w h) margin_ratio ;;
  margin <- PyFloat.to_int m ;;
  a <- PyFloat.int_mul 255 opacity ;;
  ai <- PyFloat.to_int a ;;
  let alpha := Z.max 0 (Z.min 255 ai) in
  sa <- PyFloat.int_mul alpha 0.5 ;;
  sai <- PyFloat.to_int sa ;;
  let shadow_alpha := Z.max 0 (Z.min 255 sai) in
  p <- PyFloat.int_mul size 0.2 ;;
  pi <- PyFloat.to_int p ;;
  let padding := Z.max 2 pi in
  text_img <- Image_new "RGBA" (tw + padding * 2, th + padding * 2)
                        (255, 255, 255, 0) ;;
  let text_img := draw_text text_img (padding + 1, padding + 1) text font
                            (0, 0, 0, shadow_alpha) in
  let text_img := draw_text text_img (padding, padding) text font
                            (255, 255, 255, alpha) in
  let rotated := rotate env text_img angle (0, 0, 0, 0) in
  let x := Z.max 0 (w - width rotated - margin) in
  let y := Z.max 0 (h - height rotated - margin) in
  let txt_layer := paste txt_layer rotated (x, y) rotated in
  combined <- alpha_composite base txt_layer ;;
  Ok {| l_img := img; l_w := w; l_h := h; l_base := base; l_size := size;
        l_fp := fp; l_font := font; l_tw := tw; l_th := th;
        l_margin := margin; l_alpha := alpha;
        l_shadow_alpha := shadow_alpha; l_padding := padding;
        l_text_img := text_img; l_rotated := rotated; l_x := x; l_y := y;
        l_txt_layer := txt_layer; l_combined := combined |}.

(** Lines 71-78: the mode of the result. *)
Definition restore_mode (env : Env) (img combined : Image) : result Image :=
  if String.eqb (mode img) "RGBA" then Ok combined
  else if str_in (mode img) ["RGB"; "L"] then convert env combined (mode img)
  else match convert env combined "RGB" with
       | Ok r => Ok r
       | Raise _ => Ok combined
       end.

Definition add_text_watermark (env : Env) (img : Image) (text : string)
    (opacity scale margin_ratio : float) (font_path : option string)
    (angle : float) : result Image :=
  L <- add_text_watermark_body env img text opacity scale margin_ratio
                               font_path angle ;;
  restore_mode env (l_img L) (l_combined L).

(** [p.is_file()], [p.is_dir()] and [p.exists()] as the scan and [main]
    call them: the answer, or the [OSError] that pathlib lets through. *)
Definition is_file (env : Env) (p : Path) : result bool :=
  match fs_is_file_error env p with
  | Some e => Raise e
  | None => Ok (fs_is_file env p)
  end.

Definition is_dir (env : Env) (p : Path) : result bool :=
  match fs_is_dir_error env p with
  | Some e => Raise e
  | None => Ok (fs_is_dir env p)
  end.

Definition exists_ (env : Env) (p : Path) : result bool :=
  match fs_exists_error env p with
  | Some e => Raise e
  | None => Ok (fs_exists env p)
  end.

Definition is_image_file (env : Env) (p : Path) : result bool :=
  f <- is_file env p ;;
  Ok (f && str_in (lower (suffix p)) ALLOWED_EXTS).

(** [parent] is [other] or an ancestor of it. *)
Definition is_prefix_path (parent other : Path) : bool :=
  match relative_to other parent with
  | Ok _ => true
  | Raise _ => false
  end.

Definition is_subpath (env : Env) (path parent : Path) : bool :=
  match fs_resolve env path with
  | Ok a =>
      match fs_resolve env parent with
      | Ok b => is_prefix_path b a
      | Raise _ => false
      end
  | Raise _ => false
  end.

(** What a run has written so far: the directories made and the files
    saved, the latest first. *)
Record World : Type := {
  made_dirs : list Path;
  saved : list (Path * Image * kwargs)
}.

Definition world0 : World := {| made_dirs := []; saved := [] |}.

Definition mkdir (env : Env) (w : World) (p : Path) : World * result unit :=
  match fs_mkdir_error env p with
  | Some e => (w, Raise e)
  | None => ({| made_dirs := p :: made_dirs w; saved := saved w |}, Ok tt)
  end.

(** [im.save(p, **kw)] *)
Definition save (env : Env) (w : World) (im : Image) (p : Path) (kw : kwargs)
    : World * result unit :=
  match save_error env p im kw with
  | Some e => (w, Raise e)
  | None => ({| made_dirs := made_dirs w; saved := (p, im, kw) :: saved w |},
             Ok tt)
  end.

Definition process_image_file (env : Env) (w : World) (in_path out_path : Path)
    (a : Params) : World * result unit :=
  match mkdir env w (parent out_path) with
  | (w1, Raise e) => (w1, Raise e)
  | (w1, Ok _) =>
      match
        im <- open_image env in_path ;;
        wm <- add_text_watermark env im (text a) (opacity a) (scale a)
                (margin_ratio a) (font_path a) (angle a) ;;
        let ext := lower (suffix in_path) in
        if str_in ext [".jpg"; ".jpeg"] then
          wm <- convert env wm "RGB" ;;
          Ok (wm, [("quality", PyInt 90); ("optimize", PyBool true)])
        else Ok (wm, [])
      with
      | Raise e => (w1, Raise e)
      | Ok (wm, save_kwargs) => save env w1 wm out_path save_kwargs
      end
  end.

(** A generator, run to its end: what it yielded, in order, and the
    exception that ended it, if one did. *)
Record Gen (A : Type) : Type := {
  yields : list A;
  raised : option exn
}.
Arguments yields {A} g.
Arguments raised {A} g.

(** [input_dir.rglob("*")] and [input_dir.glob("*")]: the paths of the walk
    that lie below the root, or in it. *)
Definition rglob (env : Env) (root : Path) : Gen Path :=
  {| yields := filter (below root) (fs_listing env);
     raised := fs_listing_error env |}.
Definition glob (env : Env) (root : Path) : Gen Path :=
  {| yields := filter (child_of root) (fs_listing env);
     raised := fs_listing_error env |}.

(** One turn of the generator expression [files], lines 125-129, at the
    path [p] of the walk: the pair it yields, or [None] when its condition
    filters [p] out. *)
Definition files_at (env : Env) (input_dir output_dir p : Path)
    : result (option (Path * Path)) :=
  img <- is_image_file env p ;;
  if img && negb (is_subpath env p output_dir) then
    rel <- relative_to p input_dir ;;
    Ok (Some (p, truediv output_dir rel))
  else Ok None.

(** The generator [files] drawn to its end, over the paths [ps] of a walk
    that ends with [walk_end]. *)
Fixpoint files_of (env : Env) (input_dir output_dir : Path) (ps : list Path)
    (walk_end : option exn) : Gen (Path * Path) :=
  match ps with
  | [] => {| yields := []; raised := walk_end |}
  | p :: ps' =>
      match files_at env input_dir output_dir p with
      | Raise e => {| yields := []; raised := Some e |}
      | Ok None => files_of env input_dir output_dir ps' walk_end
      | Ok (Some f) =>
          let g := files_of env input_dir output_dir ps' walk_end in
          {| yields := f :: yields g; raised := raised g |}
      end
  end.

(** The walk of line 127. *)
Definition walk (env : Env) (input_dir : Path) (no_recursive : bool)
    : Gen Path :=
  if negb no_recursive then rglob env input_dir else glob env input_dir.

Definition files (env : Env) (input_dir output_dir : Path)
    (no_recursive : bool) : Gen (Path * Path) :=
  files_of env input_dir output_dir
    (yields (walk env input_dir no_recursive))
    (raised (walk env input_dir no_recursive)).

Definition Z_str (z : Z) : string := NilZero.string_of_int (Z.to_int z).

(** The state of a run of [main]: what was written, what was printed
    (oldest line first) and the two counters. *)
Record Run : Type := {
  world : World;
  printed : list string;
  total : Z;
  ok : Z
}.

Definition line_ok (src dst : Path) : string :=
  "✅ 已处理: " ++ Path_str src ++ " -> " ++ Path_str dst.
Definition line_failed (src : Path) (e : exn) : string :=
  "❌ 失败: " ++ Path_str src ++ " | " ++ exn_str e.
Definition line_summary (n_ok n_total : Z) (output_dir : Path) : string :=
  "完成。成功 " ++ Z_str n_ok ++ "/" ++ Z_str n_total ++ " 张。输出目录: "
    ++ Path_str output_dir.

(** [print(line)]: the line is on the console, or the call raises (a
    closed pipe, a console that cannot encode the line) and nothing is. *)
Definition print (env : Env) (r : Run) (line : string) : Run * result unit :=
  match print_error env (printed r) line with
  | Some e => (r, Raise e)
  | None =>
      ({| world := world r; printed := printed r ++ [line];
          total := total r; ok := ok r |}, Ok tt)
  end.

(** One turn of the loop, lines 133-148.  [ok += 1] and the [print] of
    line 146 are inside the [try], after the call; the [print] of the
    handler, line 148, is not protected. *)
Definition loop_step (env : Env) (a : Params) (r : Run) (f : Path * Path)
    : Run * result unit :=
  let '(src, dst) := f in
  let '(w, called) := process_image_file env (world r) src dst a in
  let '(r1, tried) :=
    match called with
    | Ok _ =>
        print env {| world := w; printed := printed r;
                     total := total r + 1; ok := ok r + 1 |}
              (line_ok src dst)
    | Raise e =>
        ({| world := w; printed := printed r;
            total := total r + 1; ok := ok r |}, Raise e)
    end in
  match tried with
  | Ok _ => (r1, Ok tt)
  | Raise e => print env r1 (line_failed src e)
  end.

(** Lines 131-148.  The [for] statement draws one pair at a time from the
    generator: a path is scanned after the files before it are processed,
    and what the generator raises is outside the [try]. *)
Fixpoint loop (env : Env) (a : Params) (input_dir output_dir : Path)
    (ps : list Path) (walk_end : option exn) (r : Run) : Run * result unit :=
  match ps with
  | [] =>
      match walk_end with
      | Some e => (r, Raise e)
      | None => (r, Ok tt)
      end
  | p :: ps' =>
      match files_at env input_dir output_dir p with
      | Raise e => (r, Raise e)
      | Ok None => loop env a input_dir output_dir ps' walk_end r
      | Ok (Some f) =>
          match loop_step env a r f with
          | (r', Ok _) => loop env a input_dir output_dir ps' walk_end r'
          | (r', Raise e) => (r', Raise e)
          end
      end
  end.

(** Lines 118-119: is the input root an existing directory?  [is_dir] is
    asked only of a path that exists. *)
Definition input_root (env : Env) (args : Args) : result (Path * bool) :=
  input_dir <- fs_resolve env (Path_of (arg_input args)) ;;
  there <- exists_ env input_dir ;;
  if there then
    dir <- is_dir env input_dir ;; Ok (input_dir, dir)
  else Ok (input_dir, false).

(** Line 122. *)
Definition output_root (env : Env) (args : Args) (input_dir : Path)
    : result Path :=
  if truthy (arg_output args)
  then fs_resolve env
         (Path_of (match arg_output args with Some s => s | None => "" end))
  else Ok (truediv input_dir (Path_of "watermarked")).

(** What [SystemExit] carries: the status argparse exits with, or the
    message of line 120. *)
Inductive exit_code : Type :=
| Status (n : Z)
| Message (msg : string).

(** How [main] ends, and the state of the run at that moment:
    [SystemExit], an exception nobody caught, or its last line printed. *)
Inductive Outcome : Type :=
| Exited (r : Run) (code : exit_code)
| Uncaught (r : Run) (e : exn)
| Finished (r : Run).

Definition run0 (w : World) : Run :=
  {| world := w; printed := []; total := 0; ok := 0 |}.

(** [main()], started in the world [w]. *)
Definition main (env : Env) (w : World) : Outcome :=
  match parse_args env with
  | ParseExit status help =>
      Exited {| world := w; printed := help; total := 0; ok := 0 |}
             (Status status)
  | ParsedArgs args =>
      match input_root env args with
      | Raise e => Uncaught (run0 w) e
      | Ok (input_dir, false) =>
          Exited (run0 w) (Message ("输入目录不存在: " ++ Path_str input_dir))
      | Ok (input_dir, true) =>
          match output_root env args input_dir with
          | Raise e => Uncaught (run0 w) e
          | Ok output_dir =>
              match mkdir env w output_dir with
              | (w1, Raise e) => Uncaught (run0 w1) e
              | (w1, Ok _) =>
                  let g := walk env input_dir (arg_no_recursive args) in
                  match loop env (arg_params args) input_dir output_dir
                          (yields g) (raised g) (run0 w1) with
                  | (r, Raise e) => Uncaught r e
                  | (r, Ok _) =>
                      match print env r
                              (line_summary (ok r) (total r) output_dir) with
                      | (r', Raise e) => Uncaught r' e
                      | (r', Ok _) => Finished r'
                      end
                  end
              end
          end
      end
  end.

(* ================================================================= *)
(** ** What the specification speaks of *)

(** A mode that carries an alpha channel. *)
Definition has_alpha (m : string) : bool :=
  str_in m ["RGBA"; "LA"; "PA"; "RGBa"; "La"].

(** The size of an image once its orientation tag is applied: tags 5 to 8
    turn it by a quarter, so width and height change places. *)
Definition oriented_size (im : Image) : Z * Z :=
  match orientation im with
  | Some o => if (5 <=? o) && (o <=? 8) then (height im, width im) else size im
  | None => size im
  end.







(* ================================================================= *)
(** ** A small world to run the program in *)

Definition abs_path (ps : list string) : Path := {| anchor := "/"; parts := ps |}.

Definition Path_eqb (p q : Path) : bool :=
  String.eqb (anchor p) (anchor q) &&
  ((List.length (parts p) =? List.length (parts q))%nat &&
   forallb (fun ab => String.eqb (fst ab) (snd ab))
           (combine (parts p) (parts q))).

Definition demo_dirs : list Path :=
  [abs_path ["pics"]; abs_path ["pics"; "sub"]; abs_path ["pics"; "watermarked"]].

Definition demo_files : list Path :=
  [abs_path ["pics"; "a.jpg"];
   abs_path ["pics"; "notes.txt"];
   abs_path ["pics"; "sub"; "b.PNG"];
   abs_path ["pics"; "sub"; "broken.jpeg"];
   abs_path ["pics"; "watermarked"; "a.jpg"]].

Definition demo_image (w h : Z) (m : string) (o : option Z) (src : Path)
    : Image :=
  {| size := (w, h); mode := m; orientation := o; content := px_file src |}.

Definition demo_params : Params :=
  {| text := "SAMPLE"; opacity := 0.3; scale := 0.04; margin_ratio := 0.02;
     font_path := None; angle := 45 |}.

Definition demo_args : Args :=
  {| arg_input := "/pics"; arg_output := None; arg_params := demo_params;
     arg_no_recursive := false |}.

(** Every glyph of the default face is 6 by 11 pixels; a FreeType face of
    size [s] draws glyphs [s / 2] wide and [s] high.  A rotated canvas keeps
    its size at 0 degrees and is the enclosing square otherwise.  The
    command line is [-i /pics]; no call of the console or of [stat]
    fails. *)
Definition demo_env : Env :=
  {| parse_args := ParsedArgs demo_args;
     print_error := fun _ _ => None;
     fs_is_file := fun p => existsb (Path_eqb p) demo_files;
     fs_is_dir := fun p => existsb (Path_eqb p) demo_dirs;
     fs_exists := fun p => existsb (Path_eqb p) (demo_dirs ++ demo_files);
     fs_exists_error := fun _ => None;
     fs_is_dir_error := fun _ => None;
     fs_is_file_error := fun _ => None;
     fs_listing := tl demo_dirs ++ demo_files;
     fs_listing_error := None;
     fs_resolve := fun p => Ok p;
     fs_mkdir_error := fun _ => None;
     truetype_error := fun _ _ => None;
     textbbox := fun f t =>
       match f with
       | FreeTypeFont _ s => (0, 0, Z.of_nat (String.length t) * (s / 2), s)
       | DefaultFont => (0, 0, Z.of_nat (String.length t) * 6, 11)
       end;
     rotate_size := fun sz a =>
       if (a =? 0)%float then sz
       else (fst sz + snd sz, fst sz + snd sz);
     convert_error := fun _ _ => None;
     open_image := fun p =>
       if Path_eqb p (abs_path ["pics"; "a.jpg"])
       then Ok (demo_image 1000 800 "RGB" None p)
       else if Path_eqb p (abs_path ["pics"; "sub"; "b.PNG"])
       then Ok (demo_image 640 480 "RGBA" None p)
       else Raise (OSError "cannot identify image file");
     save_error := fun _ _ _ => None |}.

(** The same world where no conversion to RGB is possible. *)
Definition demo_env_no_rgb : Env :=
  {| parse_args := parse_args demo_env;
     print_error := print_error demo_env;
     fs_is_file := fs_is_file demo_env;
     fs_is_dir := fs_is_dir demo_env;
     fs_exists := fs_exists demo_env;
     fs_exists_error := fs_exists_error demo_env;
     fs_is_dir_error := fs_is_dir_error demo_env;
     fs_is_file_error := fs_is_file_error demo_env;
     fs_listing := fs_listing demo_env;
     fs_listing_error := fs_listing_error demo_env;
     fs_resolve := fs_resolve demo_env;
     fs_mkdir_error := fs_mkdir_error demo_env;
     truetype_error := truetype_error demo_env;
     textbbox := textbbox demo_env;
     rotate_size := rotate_size demo_env;
     convert_error := fun _ m =>
       if String.eqb m "RGB" then Some (ValueError "conversion not supported")
       else None;
     open_image := open_image demo_env;
     save_error := save_error demo_env |}.

Definition photo : Image :=
  demo_image 1000 800 "RGB" None (abs_path ["pics"; "a.jpg"]).

(** A 4 by 3 picture taken with the camera turned: orientation 6. *)
Definition turned_photo : Image :=
  demo_image 4 3 "RGB" (Some 6) (abs_path ["pics"; "a.jpg"]).

Definition small_photo : Image :=
  demo_image 100 100 "RGB" None (abs_path ["pics"; "a.jpg"]).

(** The size of the text as [load_default()] draws it: it depends on the
    text alone. *)
Definition default_text_size (env : Env) (text : string) : Z * Z :=
  let '(b0, b1, b2, b3) := textbbox env DefaultFont text in
  (b2 - b0, b3 - b1).

(** Lines 44-48 end with the default font: no path was found, or the file
    found does not load at the computed size. *)
Definition falls_back (env : Env) (font_path : option string) (sz : Z) : Prop :=
  match find_font env font_path with
  | None => True
  | Some p => truetype_error env p sz <> None
  end.

(** The explicit font path names no existing file (or there is none). *)
Definition no_explicit_font (env : Env) (explicit : option string) : Prop :=
  match explicit with
  | Some s => s = "" \/ fs_is_file env (Path_of s) = false
  | None => True
  end.

(** A picture in palette mode. *)
Definition palette_photo : Image :=
  demo_image 64 48 "P" None (abs_path ["pics"; "a.jpg"]).

(** [p] resolves to [root] or to a path below it. *)
Definition resolves_inside (env : Env) (p root : Path) : Prop :=
  exists a b rest,
    fs_resolve env p = Ok a /\ fs_resolve env root = Ok b /\
    anchor a = anchor b /\ parts a = (parts b ++ rest)%list.

(** [d] is at the same place under [output_dir] as [p] is under
    [input_dir]. *)
Definition mirrors (input_dir output_dir p d : Path) : Prop :=
  exists rest,
    anchor p = anchor input_dir /\ parts p = (parts input_dir ++ rest)%list /\
    relative_to p input_dir = Ok {| anchor := ""; parts := rest |} /\
    d = {| anchor := anchor output_dir;
           parts := (parts output_dir ++ rest)%list |}.

(** What holds of the local variables of [add_text_watermark] at line 69. *)
Record body_facts (env : Env) (img0 : Image) (text : string)
    (opacity scale margin_ratio : float) (font_path : option string)
    (angle : float) (L : Locals) : Prop := {
  bf_img : l_img L = exif_transpose img0;
  bf_w : l_w L = width (l_img L);
  bf_h : l_h L = height (l_img L);
  bf_nonneg : 0 <= l_w L /\ 0 <= l_h L;
  bf_base : convert env (l_img L) "RGBA" = Ok (l_base L);
  bf_size :
    exists si, int_times (Z.min (l_w L) (l_h L)) scale = Ok si /\
               l_size L = Z.max 12 si;
  bf_fp : l_fp L = find_font env font_path;
  bf_font : l_font L = load_font env (l_fp L) (l_size L);
  bf_tw :
    l_tw L = (let '(b0, _, b2, _) := textbbox env (l_font L) text in b2 - b0);
  bf_th :
    l_th L = (let '(_, b1, _, b3) := textbbox env (l_font L) text in b3 - b1);
  bf_margin :
    int_times (Z.min (l_w L) (l_h L)) margin_ratio = Ok (l_margin L);
  bf_alpha :
    exists ai, int_times 255 opacity = Ok ai /\
               l_alpha L = Z.max 0 (Z.min 255 ai);
  bf_shadow_alpha :
    exists sai, int_times (l_alpha L) 0.5 = Ok sai /\
                l_shadow_alpha L = Z.max 0 (Z.min 255 sai);
  bf_padding :
    exists pi, int_times (l_size L) 0.2 = Ok pi /\
               l_padding L = Z.max 2 pi;
  bf_text_img :
    l_text_img L =
      {| size := (l_tw L + l_padding L * 2, l_th L + l_padding L * 2);
         mode := "RGBA"; orientation := None;
         content :=
           px_text
             (px_text (px_new (255, 255, 255, 0))
                (l_padding L + 1, l_padding L + 1) text (l_font L)
                (0, 0, 0, l_shadow_alpha L))
             (l_padding L, l_padding L) text (l_font L)
             (255, 255, 255, l_alpha L) |};
  bf_rotated : l_rotated L = rotate env (l_text_img L) angle (0, 0, 0, 0);
  bf_x : l_x L = Z.max 0 (l_w L - width (l_rotated L) - l_margin L);
  bf_y : l_y L = Z.max 0 (l_h L - height (l_rotated L) - l_margin L);
  bf_txt_layer :
    l_txt_layer L =
      {| size := (l_w L, l_h L); mode := "RGBA"; orientation := None;
         content :=
           px_paste (px_new (255, 255, 255, 0)) (content (l_rotated L))
             (l_x L, l_y L) (content (l_rotated L)) |};
  bf_combined :
    l_combined L =
      {| size := (l_w L, l_h L); mode := "RGBA";
         orientation := orientation (l_img L);
         content :=
           px_alpha_composite (px_convert (content (l_img L)) "RGBA")
             (content (l_txt_layer L)) |}
}.

(** Every path is its own resolution: no symbolic link, and the paths the
    program handles are absolute. *)
Definition canonical (env : Env) : Prop :=
  forall q, fs_resolve env q = Ok q.

(** [x] is a number: neither NaN nor an infinity. *)
Definition finite (x : float) : bool :=
  match Prim2SF x with
  | S754_zero _ | S754_finite _ _ _ => true
  | _ => false
  end.

(** The small world on a machine where Arial is installed. *)
Definition demo_env_arial : Env :=
  {| parse_args := parse_args demo_env;
     print_error := print_error demo_env;
     fs_is_file := fun p =>
       Path_eqb p (Path_of "/Library/Fonts/Arial.ttf") || fs_is_file demo_env p;
     fs_is_dir := fs_is_dir demo_env;
     fs_exists := fs_exists demo_env;
     fs_exists_error := fs_exists_error demo_env;
     fs_is_dir_error := fs_is_dir_error demo_env;
     fs_is_file_error := fs_is_file_error demo_env;
     fs_listing := fs_listing demo_env;
     fs_listing_error := fs_listing_error demo_env;
     fs_resolve := fs_resolve demo_env;
     fs_mkdir_error := fs_mkdir_error demo_env;
     truetype_error := truetype_error demo_env;
     textbbox := textbbox demo_env;
     rotate_size := rotate_size demo_env;
     convert_error := convert_error demo_env;
     open_image := open_image demo_env;
     save_error := save_error demo_env |}.

(** The turns of the loop on the pairs [fs] drawn from the generator, up
    to the first turn that lets an exception through. *)
Fixpoint turns (env : Env) (a : Params) (fs : list (Path * Path)) (r : Run)
    : Run * result unit :=
  match fs with
  | [] => (r, Ok tt)
  | f :: fs' =>
      match loop_step env a r f with
      | (r', Ok _) => turns env a fs' r'
      | (r', Raise e) => (r', Raise e)
      end
  end.

(** The state of the run when [main] ends. *)
Definition run_of (o : Outcome) : Run :=
  match o with
  | Exited r _ | Uncaught r _ | Finished r => r
  end.

(** The path a saved file was written to. *)
Definition saved_path (x : Path * Image * kwargs) : Path := fst (fst x).

(** [input_dir] is the input root of a run with the arguments [args]: the
    resolved [--input], an existing directory. *)
Definition input_is_directory (env : Env) (args : Args) (input_dir : Path)
    : Prop :=
  fs_resolve env (Path_of (arg_input args)) = Ok input_dir /\
  fs_exists_error env input_dir = None /\ fs_exists env input_dir = true /\
  fs_is_dir_error env input_dir = None /\ fs_is_dir env input_dir = true.

(** [output_dir] is the output root: the resolved [--output] when one is
    given (and not empty), [watermarked] under the input root otherwise. *)
Definition output_is (env : Env) (args : Args) (input_dir output_dir : Path)
    : Prop :=
  match arg_output args with
  | Some s =>
      if String.eqb s ""
      then output_dir = truediv input_dir (Path_of "watermarked")
      else fs_resolve env (Path_of s) = Ok output_dir
  | None => output_dir = truediv input_dir (Path_of "watermarked")
  end.


(** The small world with another command line, console or [is_file]. *)
Definition demo_env_with (cmd : Parsed)
    (console : list string -> string -> option exn)
    (is_file_error : Path -> option exn) : Env :=
  {| parse_args := cmd;
     print_error := console;
     fs_is_file := fs_is_file demo_env;
     fs_is_dir := fs_is_dir demo_env;
     fs_exists := fs_exists demo_env;
     fs_exists_error := fs_exists_error demo_env;
     fs_is_dir_error := fs_is_dir_error demo_env;
     fs_is_file_error := is_file_error;
     fs_listing := fs_listing demo_env;
     fs_listing_error := fs_listing_error demo_env;
     fs_resolve := fs_resolve demo_env;
     fs_mkdir_error := fs_mkdir_error demo_env;
     truetype_error := truetype_error demo_env;
     textbbox := textbbox demo_env;
     rotate_size := rotate_size demo_env;
     convert_error := convert_error demo_env;
     open_image := open_image demo_env;
     save_error := save_error demo_env |}.

(** The command line [-i /nowhere]. *)
Definition nowhere_args : Args :=
  {| arg_input := "/nowhere"; arg_output := None; arg_params := demo_params;
     arg_no_recursive := false |}.

(** [stat] is denied on [/pics/sub/b.PNG]. *)
Definition denied (p : Path) : option exn :=
  if Path_eqb p (abs_path ["pics"; "sub"; "b.PNG"])
  then Some (OSError "[Errno 13] Permission denied")
  else None.

(** The reader of the output has gone: every [print] raises. *)
Definition broken_pipe (printed_so_far : list string) (line : string)
    : option exn :=
  Some (OSError "[Errno 32] Broken pipe").

(* ================================================================= *)
(** * Properties *)

Lemma bind_Ok_inv {A B : Type} (r : result A) (k : A -> result B) (b : B) :
  bind r k = Ok b -> exists a, r = Ok a /\ k a = Ok b.
Proof. destruct r as [a|e]; simpl; [eauto | discriminate]. Qed.

(* ================================================================= *)
(** ** Binary64 rounding, as far as the program needs it *)

(** One step of the shift that rounding uses halves the mantissa. *)
Lemma shr_1_div2 (r : shr_record) :
  0 <= shr_m r -> shr_m (shr_1 r) = shr_m r / 2 /\ 0 <= shr_m (shr_1 r).
Proof.
  destruct r as [m rb sb]; simpl; intros Hm.
  rewrite <- Z.div2_div.
  destruct m as [|[p|p|]|p]; simpl; try lia.
Qed.

Lemma shr_m_iter (p : positive) :
  forall r, 0 <= shr_m r ->
    shr_m (iter_pos shr_1 p r) = shr_m r / 2 ^ Z.pos p /\
    0 <= shr_m (iter_pos shr_1 p r).
Proof.
  induction p as [p IH|p IH|]; intros r Hr; cbn [iter_pos].
  - destruct (shr_1_div2 r Hr) as [E1 P1].
    destruct (IH _ P1) as [E2 P2].
    destruct (IH _ P2) as [E3 P3].
    split; [|exact P3].
    rewrite E3, E2, E1.
    rewrite !Z.div_div by lia.
    f_equal. change 2 with (2 ^ 1) at 1.
    rewrite <- !Z.pow_add_r by lia. f_equal. lia.
  - destruct (IH _ Hr) as [E2 P2].
    destruct (IH _ P2) as [E3 P3].
    split; [|exact P3].
    rewrite E3, E2.
    rewrite !Z.div_div by lia.
    f_equal. rewrite <- Z.pow_add_r by lia. f_equal. lia.
  - destruct (shr_1_div2 r Hr) as [E1 P1]. split; [|exact P1].
    rewrite E1. f_equal.
Qed.

Lemma shr_m_of_loc (m : Z) (l : location) : shr_m (shr_record_of_loc m l) = m.
Proof. destruct l as [|[ | | ]]; reflexivity. Qed.

(** One [shr_fexp]: nothing moves, or the mantissa is divided down to the
    exponent [fexp] asks for. *)
Lemma shr_fexp_step (m e : Z) (l : location) :
  0 <= m ->
  let '(r, e') := shr_fexp prec emax m e l in
  0 <= shr_m r /\
  ((e' = e /\ shr_m r = m) \/
   (e < e' /\ e' = fexp prec emax (Zdigits2 m + e) /\
    shr_m r = m / 2 ^ (e' - e))).
Proof.
  intros Hm. unfold shr_fexp, shr.
  destruct (fexp prec emax (Zdigits2 m + e) - e) as [|p|p] eqn:K.
  - rewrite shr_m_of_loc. split; [lia|left; split; reflexivity].
  - destruct (shr_m_iter p (shr_record_of_loc m l)) as [E P].
    { rewrite shr_m_of_loc; exact Hm. }
    rewrite shr_m_of_loc in E.
    split; [exact P|right].
    split; [lia|]. split; [lia|].
    rewrite E. f_equal. f_equal. lia.
  - rewrite shr_m_of_loc. split; [lia|left; split; reflexivity].
Qed.

Lemma digits2_pos_size (p : positive) : digits2_pos p = Pos.size p.
Proof. induction p; simpl; congruence. Qed.

Lemma Zdigits2_le (m d : Z) : 0 <= m -> 0 <= d -> m < 2 ^ d -> Zdigits2 m <= d.
Proof.
  intros Hm Hd Hlt. destruct m as [|p|p]; simpl; try lia.
  rewrite digits2_pos_size.
  pose proof (Pos.size_le p) as Hle.
  apply Pos2Z.pos_le_pos in Hle.
  rewrite Pos2Z.inj_pow in Hle.
  assert (H2 : 2 ^ Z.pos (Pos.size p) < 2 ^ (d + 1)).
  { rewrite Z.pow_add_r by lia. change (2 ^ 1) with 2. lia. }
  apply Z.pow_lt_mono_r_iff in H2; lia.
Qed.

Lemma Zpos_lt_pow_digits (p : positive) : Z.pos p < 2 ^ Z.pos (digits2_pos p).
Proof.
  rewrite digits2_pos_size.
  pose proof (Pos.size_gt p) as H.
  apply Pos2Z.pos_lt_pos in H. rewrite Pos2Z.inj_pow in H. exact H.
Qed.

Lemma round_nearest_even_le (m : Z) (l : location) :
  m <= round_nearest_even m l <= m + 1.
Proof.
  destruct l as [|[ | | ]]; simpl; try lia.
  destruct (Z.even m); lia.
Qed.

Lemma fexp_le (d e c : Z) : d + e <= c -> -1021 <= c ->
  fexp prec emax (d + e) <= c - 53.
Proof. unfold fexp, SpecFloat.emin, prec, emax. lia. Qed.

Lemma pow2_split (a b : Z) : 0 <= a -> 0 <= b -> 2 ^ (a + b) = 2 ^ a * 2 ^ b.
Proof. intros; apply Z.pow_add_r; assumption. Qed.

(** Rounding a positive value that is at most [n] (below 256) gives a float
    that truncates into [0, n]; it never overflows. *)
Lemma binary_round_aux_below (M : positive) (E n : Z) :
  0 <= n < 256 -> E <= -45 -> Z.pos M <= n * 2 ^ (- E) ->
  match binary_round_aux prec emax false (Z.pos M) E loc_Exact with
  | S754_zero _ => True
  | S754_finite s m e => 0 <= PyFloat.trunc_finite s m e <= n
  | _ => False
  end.
Proof.
  intros Hn HE HM. unfold binary_round_aux.
  pose proof (shr_fexp_step (Z.pos M) E loc_Exact ltac:(lia)) as S1.
  destruct (shr_fexp prec emax (Z.pos M) E loc_Exact) as [r1 e1].
  destruct S1 as [P1 S1].
  assert (Hpow : forall a, 0 < 2 ^ a \/ a < 0).
  { intros a. destruct (Z_lt_le_dec a 0); [right; lia|left; apply Z.pow_pos_nonneg; lia]. }
  assert (B1 : e1 <= -45 /\ shr_m r1 <= n * 2 ^ (- e1)).
  { destruct S1 as [[-> ->]|(Hlt & He & Hm)]; [split; lia|].
    assert (Hd : Zdigits2 (Z.pos M) + E <= 8).
    { assert (Zdigits2 (Z.pos M) <= 8 - E); [|lia].
      apply Zdigits2_le; try lia.
      replace (8 - E) with (8 + - E) by lia. rewrite pow2_split by lia.
      change (2 ^ 8) with 256.
      destruct (Hpow (- E)); nia. }
    pose proof (fexp_le _ _ 8 Hd ltac:(lia)) as Hf. rewrite <- He in Hf.
    split; [lia|]. rewrite Hm.
    apply Z.div_le_upper_bound; [destruct (Hpow (e1 - E)); lia|].
    replace (- E) with ((e1 - E) + - e1) in HM by lia.
    rewrite pow2_split in HM by lia. lia. }
  destruct B1 as [He1 Hm1].
  set (m2 := round_nearest_even (shr_m r1) (loc_of_shr_record r1)).
  pose proof (round_nearest_even_le (shr_m r1) (loc_of_shr_record r1)) as R.
  fold m2 in R.
  assert (B2 : 0 <= m2 /\ m2 < (n + 1) * 2 ^ (- e1)).
  { split; [lia|].
    assert (2 <= 2 ^ (- e1)).
    { change 2 with (2 ^ 1) at 1. apply Z.pow_le_mono_r; lia. }
    nia. }
  destruct B2 as [P2 Hm2].
  pose proof (shr_fexp_step m2 e1 loc_Exact P2) as S2.
  destruct (shr_fexp prec emax m2 e1 loc_Exact) as [r3 e3].
  destruct S2 as [P3 S2].
  assert (B3 : e3 <= -45 /\ shr_m r3 < (n + 1) * 2 ^ (- e3)).
  { destruct S2 as [[-> ->]|(Hlt & He & Hm)]; [split; lia|].
    assert (Hd : Zdigits2 m2 + e1 <= 8).
    { assert (Zdigits2 m2 <= 8 - e1); [|lia].
      apply Zdigits2_le; try lia.
      replace (8 - e1) with (8 + - e1) by lia. rewrite pow2_split by lia.
      change (2 ^ 8) with 256.
      destruct (Hpow (- e1)); nia. }
    pose proof (fexp_le _ _ 8 Hd ltac:(lia)) as Hf. rewrite <- He in Hf.
    split; [lia|]. rewrite Hm.
    apply Z.div_lt_upper_bound; [destruct (Hpow (e3 - e1)); lia|].
    replace (- e1) with ((e3 - e1) + - e3) in Hm2 by lia.
    rewrite pow2_split in Hm2 by lia. lia. }
  destruct B3 as [He3 Hm3].
  destruct (shr_m r3) as [|m3|m3] eqn:Em3; [exact I| |lia].
  replace (e3 <=? emax - prec) with true
    by (symmetry; apply Z.leb_le; unfold emax, prec; lia).
  unfold PyFloat.trunc_finite.
  replace (0 <=? e3) with false by (symmetry; apply Z.leb_gt; lia).
  assert (0 < 2 ^ (- e3)) by (apply Z.pow_pos_nonneg; lia).
  split.
  - apply Z.div_pos; lia.
  - assert (Z.pos m3 / 2 ^ (- e3) < n + 1); [|lia].
    apply Z.div_lt_upper_bound; lia.
Qed.

Lemma of_int_255 : PyFloat.of_int 255 = Ok 255%float.
Proof. reflexivity. Qed.

Lemma Prim2SF_255 : Prim2SF 255 = S754_finite false 8972014882652160 (-45).
Proof. reflexivity. Qed.

(** A valid mantissa has at most 53 bits. *)
Lemma bounded_mantissa (m : positive) (e : Z) :
  bounded prec emax m e = true -> Z.pos m < 2 ^ 53.
Proof.
  unfold bounded, canonical_mantissa. intros H.
  apply andb_true_iff in H. destruct H as [H _].
  apply Z.eqb_eq in H.
  unfold fexp, SpecFloat.emin, prec, emax in H.
  pose proof (Zpos_lt_pow_digits m) as Hd.
  assert (Z.pos (digits2_pos m) <= 53) by lia.
  eapply Z.lt_le_trans; [exact Hd|].
  apply Z.pow_le_mono_r; lia.
Qed.

(** [int(255 * x)] is defined and within [0, 255] for every float [x] of
    the unit interval. *)
Lemma unit_times_255 (x : float) :
  (0 <=? x)%float = true -> (x <=? 1)%float = true ->
  exists f t, PyFloat.int_mul 255 x = Ok f /\ PyFloat.to_int f = Ok t /\
              0 <= t <= 255.
Proof.
  intros H0 H1. unfold PyFloat.int_mul. rewrite of_int_255.
  cbn [bind].
  exists (255 * x)%float. unfold PyFloat.to_int.
  rewrite mul_spec. rewrite Prim2SF_255.
  rewrite leb_spec in H0, H1.
  pose proof (Prim2SF_valid x) as V.
  change (Prim2SF 0) with (S754_zero false) in H0.
  change (Prim2SF 1) with (S754_finite false 4503599627370496 (-52)) in H1.
  unfold SF64mul, SFmul.
  destruct (Prim2SF x) as [s|s| |s m e].
  - exists 0. split; [reflexivity|]. split; [reflexivity|lia].
  - destruct s; discriminate.
  - discriminate.
  - destruct s; [discriminate|].
    cbn [valid_binary] in V.
    pose proof (bounded_mantissa m e V) as Hm.
    assert (Hme : e <= -52 /\ Z.pos m <= 2 ^ (- e)).
    { unfold SFleb, SFcompare in H1.
      destruct (Z.compare_spec e (-52)) as [->|Hlt|Hgt].
      +
        destruct (Pos.compare_cont Eq m 4503599627370496) eqn:C;
          try discriminate.
        * apply Pos.compare_eq in C. subst m.
          split; [lia|]. 
          change (2 ^ (- -52)) with 4503599627370496. lia.
        * 
          assert (Hc : Z.pos m < 4503599627370496) by (apply Pos2Z.pos_lt_pos; exact C).
          split; [lia|].
          change (2 ^ (- -52)) with 4503599627370496. lia.
      + split; [lia|].
        assert (2 ^ 53 <= 2 ^ (- e)). { apply Z.pow_le_mono_r. lia. lia. }
        lia.
      + discriminate. }
    destruct Hme as [He Hle].
    assert (HM : Z.pos (8972014882652160 * m) <= 255 * 2 ^ (- (-45 + e))).
    { replace (- (-45 + e)) with (45 + - e) by lia.
      rewrite pow2_split by lia. rewrite Pos2Z.inj_mul.
      change (2 ^ 45) with 35184372088832.
      change (Z.pos 8972014882652160) with (255 * 35184372088832).
      rewrite <- Z.mul_assoc. apply Z.mul_le_mono_nonneg_l; [lia|].
      apply Z.mul_le_mono_nonneg_l; lia. }
    pose proof (binary_round_aux_below (8972014882652160 * m) (-45 + e) 255
                  ltac:(lia) ltac:(lia) HM) as B.
    cbn [xorb].
    destruct (binary_round_aux prec emax false
                (Z.pos (8972014882652160 * m)) (-45 + e) loc_Exact)
      as [s'|s'| |s' m' e'].
    + exists 0. split; [reflexivity|]. split; [reflexivity|lia].
    + destruct B.
    + destruct B.
    + exists (PyFloat.trunc_finite s' m' e').
      split; [reflexivity|]. split; [reflexivity|exact B].
Qed.

(* ================================================================= *)
(** ** The calls of Pillow that can fail *)

Lemma Image_new_Ok (m : string) (sz : Z * Z) (c : rgba) (im : Image) :
  Image_new m sz c = Ok im ->
  0 <= fst sz /\ 0 <= snd sz /\
  im = {| size := sz; mode := m; orientation := None; content := px_new c |}.
Proof.
  unfold Image_new.
  destruct (fst sz <? 0) eqn:Hw; [discriminate|].
  destruct (snd sz <? 0) eqn:Hh; [discriminate|].
  cbn [orb]. intros [= <-].
  apply Z.ltb_ge in Hw, Hh. auto.
Qed.

Lemma convert_Ok (env : Env) (im r : Image) (m : string) :
  convert env im m = Ok r ->
  r = {| size := size im; mode := m; orientation := orientation im;
         content := px_convert (content im) m |}.
Proof.
  unfold convert. destruct (convert_error env im m); [discriminate|].
  now intros [= <-].
Qed.

Lemma int_times_Ok (z : Z) (x : float) (f : float) (t : Z) :
  PyFloat.int_mul z x = Ok f -> PyFloat.to_int f = Ok t ->
  int_times z x = Ok t.
Proof. intros H1 H2. unfold int_times. rewrite H1. exact H2. Qed.

(** What [add_text_watermark] has computed when it reaches line 69. *)
Lemma add_text_watermark_body_inv (env : Env) (img0 : Image) (text : string)
    (opacity scale margin_ratio : float) (font_path : option string)
    (angle : float) (L : Locals) :
  add_text_watermark_body env img0 text opacity scale margin_ratio font_path
    angle = Ok L ->
  body_facts env img0 text opacity scale margin_ratio font_path angle L.
Proof.
  intros H. unfold add_text_watermark_body in H.
  set (img := exif_transpose img0) in *.
  destruct (size img) as [w0 h0] eqn:Hsz.
  apply bind_Ok_inv in H. destruct H as (base & Hbase & H).
  apply bind_Ok_inv in H. destruct H as (txt & Htxt & H).
  apply bind_Ok_inv in H. destruct H as (fs & Hfs & H).
  apply bind_Ok_inv in H. destruct H as (si & Hsi & H).
  destruct (textbbox env (load_font env (find_font env font_path)
                            (Z.max 12 si)) text)
    as [[[b0 b1] b2] b3] eqn:Hbb.
  apply bind_Ok_inv in H. destruct H as (fm & Hfm & H).
  apply bind_Ok_inv in H. destruct H as (margin & Hmargin & H).
  apply bind_Ok_inv in H. destruct H as (fa & Hfa & H).
  apply bind_Ok_inv in H. destruct H as (ai & Hai & H).
  apply bind_Ok_inv in H. destruct H as (fsa & Hfsa & H).
  apply bind_Ok_inv in H. destruct H as (sai & Hsai & H).
  apply bind_Ok_inv in H. destruct H as (fp & Hfp & H).
  apply bind_Ok_inv in H. destruct H as (pi & Hpi & H).
  apply bind_Ok_inv in H. destruct H as (timg & Htimg & H).
  apply bind_Ok_inv in H. destruct H as (comb & Hcomb & H).
  injection H as <-.
  apply Image_new_Ok in Htxt. cbn [fst snd] in Htxt.
  destruct Htxt as (Hw0 & Hh0 & ->).
  apply Image_new_Ok in Htimg. destruct Htimg as (_ & _ & ->).
  pose proof (convert_Ok _ _ _ _ Hbase) as Eb.
  assert (Ew : width img = w0) by (unfold width; now rewrite Hsz).
  assert (Eh : height img = h0) by (unfold height; now rewrite Hsz).
  constructor;
    cbn [l_img l_w l_h l_base l_size l_fp l_font l_tw l_th l_margin l_alpha
         l_shadow_alpha l_padding l_text_img l_rotated l_x l_y l_txt_layer
         l_combined];
    try rewrite Hbb; try reflexivity; try assumption; try (symmetry; assumption);
    try (split; assumption);
    try (eexists; split; [eapply int_times_Ok; eassumption|reflexivity]);
    try (eapply int_times_Ok; eassumption).
  unfold alpha_composite in Hcomb. rewrite Eb in Hcomb.
  cbn [mode paste width height size fst snd content orientation] in Hcomb.
  rewrite Hsz in Hcomb. cbn [fst snd] in Hcomb.
  rewrite !Z.eqb_refl in Hcomb.
  cbn [String.eqb Ascii.eqb Bool.eqb andb negb] in Hcomb.
  injection Hcomb as <-. reflexivity.
Qed.

(** [int(a * 0.5)] is [a // 2] for every alpha value. *)
Lemma half_of_alpha (a : Z) : 0 <= a <= 255 -> int_times a 0.5 = Ok (a / 2).
Proof.
  intros Ha.
  assert (T : forallb (fun n => match int_times (Z.of_nat n) 0.5 with
                                | Ok z => z =? Z.of_nat n / 2
                                | Raise _ => false
                                end) (seq 0 256) = true) by (vm_compute; reflexivity).
  rewrite forallb_forall in T.
  specialize (T (Z.to_nat a)).
  rewrite Z2Nat.id in T by lia.
  assert (I : In (Z.to_nat a) (seq 0 256)) by (apply in_seq; lia).
  specialize (T I).
  destruct (int_times a 0.5) as [z|e]; [|discriminate].
  apply Z.eqb_eq in T. now subst z.
Qed.

Lemma int_times_255_unit (x : float) :
  (0 <=? x)%float = true -> (x <=? 1)%float = true ->
  exists t, int_times 255 x = Ok t /\ 0 <= t <= 255.
Proof.
  intros H0 H1. destruct (unit_times_255 x H0 H1) as (f & t & Hf & Ht & B).
  exists t. split; [|exact B]. eapply int_times_Ok; eassumption.
Qed.

(** C1 (amended): the alpha that fills the glyphs is [int(255 * opacity)],
    the product truncated toward zero, clamped to [0, 255]; for an opacity
    within [0, 1] the clamp changes nothing.  The alpha of the shadow is
    [int(alpha * 0.5)], which is [alpha // 2]; both are the alphas of the
    fill colours of the two [text] calls on the text image. *)
Theorem C1_alpha_truncates (env : Env) (img : Image) (text : string)
    (opacity scale margin_ratio : float) (font_path : option string)
    (angle : float) (L : Locals) :
  add_text_watermark_body env img text opacity scale margin_ratio font_path
    angle = Ok L ->
  exists t,
    int_times 255 opacity = Ok t /\
    l_alpha L = Z.max 0 (Z.min 255 t) /\
    0 <= l_alpha L <= 255 /\
    ((0 <=? opacity)%float = true -> (opacity <=? 1)%float = true ->
     l_alpha L = t) /\
    int_times (l_alpha L) 0.5 = Ok (l_shadow_alpha L) /\
    l_shadow_alpha L = l_alpha L / 2 /\
    exists canvas xy1 xy2 f,
      content (l_text_img L) =
        px_text (px_text canvas xy1 text f (0, 0, 0, l_shadow_alpha L))
                xy2 text f (255, 255, 255, l_alpha L).
Proof.
  intros H. apply add_text_watermark_body_inv in H.
  destruct (bf_alpha _ _ _ _ _ _ _ _ _ H) as (ai & Hai & Ha).
  destruct (bf_shadow_alpha _ _ _ _ _ _ _ _ _ H) as (sai & Hsai & Hsa).
  pose proof (bf_text_img _ _ _ _ _ _ _ _ _ H) as Himg.
  assert (Ra : 0 <= l_alpha L <= 255) by lia.
  rewrite (half_of_alpha _ Ra) in Hsai. injection Hsai as <-.
  assert (Rs : 0 <= l_alpha L / 2 <= 255).
  { split; [apply Z.div_pos; lia|]. apply Z.div_le_upper_bound; lia. }
  assert (Es : l_shadow_alpha L = l_alpha L / 2) by lia.
  exists ai. repeat split; try lia; try assumption.
  - intros H0 H1. destruct (int_times_255_unit _ H0 H1) as (t & Ht & Bt).
    rewrite Hai in Ht. injection Ht as <-. lia.
  - rewrite Es. apply half_of_alpha. exact Ra.
  - rewrite Himg. cbn [content]. eauto.
Qed.

(** The plan of C1 on a picture of the small world, opacity 0.3. *)
Lemma C1_alpha_truncates_witness :
  exists L,
    add_text_watermark_body demo_env photo "SAMPLE" 0.3 0.04 0.02 None 45
      = Ok L /\
    exists t,
      int_times 255 0.3 = Ok t /\
      l_alpha L = Z.max 0 (Z.min 255 t) /\
      0 <= l_alpha L <= 255 /\
      ((0 <=? 0.3)%float = true -> (0.3 <=? 1)%float = true ->
       l_alpha L = t) /\
      int_times (l_alpha L) 0.5 = Ok (l_shadow_alpha L) /\
      l_shadow_alpha L = l_alpha L / 2 /\
      exists canvas xy1 xy2 f,
        content (l_text_img L) =
          px_text (px_text canvas xy1 "SAMPLE" f (0, 0, 0, l_shadow_alpha L))
                  xy2 "SAMPLE" f (255, 255, 255, l_alpha L).
Proof.
  destruct (add_text_watermark_body demo_env photo "SAMPLE" 0.3 0.04 0.02
              None 45) as [L|e] eqn:E; [|vm_compute in E; discriminate].
  exists L. split; [reflexivity|].
  exact (C1_alpha_truncates demo_env photo "SAMPLE" 0.3 0.04 0.02 None 45 L E).
Defined.

(** C1 as the specification states it fails: at opacity 0.125 the product
    255 * 0.125 is 31.875, whose only nearest integer is 32, yet the glyphs
    are filled with alpha 31; and the shadow gets 15 where Python's [round]
    of 31 * 0.5 is 16. *)
Lemma C1_alpha_is_not_rounded :
  exists L f g,
    add_text_watermark_body demo_env small_photo "x" 0.125 0.1875 0.1875
      None 0 = Ok L /\
    PyFloat.int_mul 255 0.125 = Ok f /\
    (forall z, PyFloat.nearest_int f z -> Z.max 0 (Z.min 255 z) = 32) /\
    PyFloat.round f = Ok 32 /\
    l_alpha L = 31 /\
    PyFloat.int_mul (l_alpha L) 0.5 = Ok g /\
    PyFloat.round g = Ok 16 /\
    l_shadow_alpha L = 15.
Proof.
  eexists _, 31.875%float, 15.5%float.
  split; [vm_compute; reflexivity|]. cbn [l_alpha l_shadow_alpha].
  split; [vm_compute; reflexivity|].
  split.
  { intros z Hz. unfold PyFloat.nearest_int in Hz.
    change (Prim2SF 31.875) with (S754_finite false 8972014882652160 (-48)) in Hz.
    cbv beta iota zeta in Hz.
    change (0 <=? -48) with false in Hz. cbv iota in Hz.
    change (2 ^ (- -48)) with 281474976710656 in Hz. lia. }
  repeat split; vm_compute; reflexivity.
Qed.

(* ================================================================= *)
(** ** Orientation and size *)

Lemma exif_method_swaps (o : Z) :
  match exif_method o with
  | Some t => swaps_axes t = ((5 <=? o) && (o <=? 8))
  | None => (5 <=? o) && (o <=? 8) = false
  end.
Proof.
  destruct o as [|p|p]; try reflexivity.
  destruct p as [[[[p|p|]|[p|p|]|]|[[p|p|]|[p|p|]|]|]
                |[[[p|p|]|[p|p|]|]|[[p|p|]|[p|p|]|]|]|];
    try reflexivity;
    cbv beta iota delta [exif_method];
    apply andb_false_iff; right; apply Z.leb_gt; lia.
Qed.

Lemma exif_transpose_size (im : Image) :
  size (exif_transpose im) = oriented_size im.
Proof.
  unfold exif_transpose, oriented_size.
  destruct (orientation im) as [o|]; [|reflexivity].
  pose proof (exif_method_swaps o) as H.
  destruct (exif_method o) as [t|]; cbv iota in H.
  - cbn [size transpose]. rewrite H. reflexivity.
  - rewrite H. reflexivity.
Qed.

Lemma exif_transpose_mode (im : Image) :
  mode (exif_transpose im) = mode im.
Proof.
  unfold exif_transpose.
  destruct (orientation im) as [o|]; [|reflexivity].
  destruct (exif_method o); reflexivity.
Qed.

Lemma restore_mode_size (env : Env) (img c out : Image) :
  restore_mode env img c = Ok out -> size out = size c.
Proof.
  unfold restore_mode.
  destruct (mode img =? "RGBA")%string; [now intros [= <-]|].
  destruct (str_in (mode img) ["RGB"; "L"]).
  - intros H. apply convert_Ok in H. now subst out.
  - destruct (convert env c "RGB") as [r|e] eqn:E.
    + intros [= <-]. apply convert_Ok in E. now subst r.
    + now intros [= <-].
Qed.

(** C2 (amended): the image returned has the size of the picture once its
    EXIF orientation is applied: the size of the input when the input has
    no orientation tag or a tag outside 5..8, and the input's height and
    width exchanged when the tag is 5, 6, 7 or 8. *)
Theorem C2_size_follows_orientation (env : Env) (img : Image) (text : string)
    (opacity scale margin_ratio : float) (font_path : option string)
    (angle : float) (out : Image) :
  add_text_watermark env img text opacity scale margin_ratio font_path angle
    = Ok out ->
  size out = oriented_size img /\
  match orientation img with
  | Some o =>
      if (5 <=? o) && (o <=? 8) then size out = (height img, width img)
      else size out = size img
  | None => size out = size img
  end.
Proof.
  intros H. unfold add_text_watermark in H.
  apply bind_Ok_inv in H. destruct H as (L & HL & H).
  apply restore_mode_size in H.
  apply add_text_watermark_body_inv in HL.
  assert (E : size (l_combined L) = size (exif_transpose img)).
  { rewrite (bf_combined _ _ _ _ _ _ _ _ _ HL). cbn [size].
    rewrite (bf_w _ _ _ _ _ _ _ _ _ HL), (bf_h _ _ _ _ _ _ _ _ _ HL),
      (bf_img _ _ _ _ _ _ _ _ _ HL).
    unfold width, height. now destruct (size (exif_transpose img)). }
  rewrite H, E, exif_transpose_size. split; [reflexivity|].
  unfold oriented_size. destruct (orientation img) as [o|]; [|reflexivity].
  destruct ((5 <=? o) && (o <=? 8)); reflexivity.
Qed.

Lemma C2_size_follows_orientation_witness :
  exists out,
    add_text_watermark demo_env turned_photo "SAMPLE" 0.3 0.04 0.02 None 45
      = Ok out /\
    size out = oriented_size turned_photo /\
    size out = (height turned_photo, width turned_photo).
Proof.
  destruct (add_text_watermark demo_env turned_photo "SAMPLE" 0.3 0.04 0.02
              None 45) as [out|e] eqn:E; [|vm_compute in E; discriminate].
  exists out. split; [reflexivity|].
  exact (C2_size_follows_orientation demo_env turned_photo "SAMPLE" 0.3 0.04
           0.02 None 45 out E).
Defined.

(** C2 as the specification states it fails: a 4 by 3 picture whose
    orientation tag is 6 comes back 3 by 4. *)
Lemma C2_turned_photo_changes_size :
  exists out,
    add_text_watermark demo_env turned_photo "SAMPLE" 0.3 0.04 0.02 None 45
      = Ok out /\
    size turned_photo = (4, 3) /\
    size out = (3, 4) /\
    size out <> size turned_photo.
Proof.
  eexists. split; [vm_compute; reflexivity|].
  cbn [size turned_photo demo_image]. repeat split. discriminate.
Qed.

(* ================================================================= *)
(** ** Geometry *)

Lemma oriented_size_min (im : Image) :
  Z.min (fst (oriented_size im)) (snd (oriented_size im))
    = Z.min (width im) (height im).
Proof.
  unfold oriented_size, width, height.
  destruct (orientation im) as [o|]; [|reflexivity].
  destruct ((5 <=? o) && (o <=? 8)); [|reflexivity].
  cbn [fst snd]. apply Z.min_comm.
Qed.

(** C3 (amended): on a picture of width W and height H, the font size used
    is [max(12, int(min(W, H) * scale))], the margin used for placement is
    [int(min(W, H) * margin_ratio)] and the padding added around the
    rendered text is [max(2, int(size * 0.2))], where [int] truncates toward
    zero.  Used: the font is loaded at that size (whenever a font file is
    loaded); the text image is the extent of the text in that font plus the
    padding on every side, with the text drawn at (padding, padding); and
    the rotated text is pasted [margin] pixels before the right and the
    bottom edge of the picture, which is what is composed over it. *)
Theorem C3_geometry_truncates (env : Env) (img : Image) (text : string)
    (opacity scale margin_ratio : float) (font_path : option string)
    (angle : float) (L : Locals) :
  add_text_watermark_body env img text opacity scale margin_ratio font_path
    angle = Ok L ->
  exists si pi,
    int_times (Z.min (width img) (height img)) scale = Ok si /\
    l_size L = Z.max 12 si /\
    int_times (Z.min (width img) (height img)) margin_ratio
      = Ok (l_margin L) /\
    int_times (l_size L) 0.2 = Ok pi /\
    l_padding L = Z.max 2 pi /\
    12 <= l_size L /\ 2 <= l_padding L /\
    (* the font size is used *)
    l_font L = load_font env (find_font env font_path) (l_size L) /\
    (forall p sz, l_font L = FreeTypeFont p sz -> sz = l_size L) /\
    (* the padding is used *)
    (forall b0 b1 b2 b3,
       textbbox env (l_font L) text = (b0, b1, b2, b3) ->
       size (l_text_img L)
         = (b2 - b0 + l_padding L * 2, b3 - b1 + l_padding L * 2)) /\
    content (l_text_img L) =
      px_text
        (px_text (px_new (255, 255, 255, 0))
           (l_padding L + 1, l_padding L + 1) text (l_font L)
           (0, 0, 0, l_shadow_alpha L))
        (l_padding L, l_padding L) text (l_font L)
        (255, 255, 255, l_alpha L) /\
    (* the margin is used *)
    l_rotated L = rotate env (l_text_img L) angle (0, 0, 0, 0) /\
    (l_w L, l_h L) = oriented_size img /\
    l_x L = Z.max 0 (l_w L - width (l_rotated L) - l_margin L) /\
    l_y L = Z.max 0 (l_h L - height (l_rotated L) - l_margin L) /\
    content (l_combined L) =
      px_alpha_composite
        (px_convert (content (exif_transpose img)) "RGBA")
        (px_paste (px_new (255, 255, 255, 0)) (content (l_rotated L))
           (l_x L, l_y L) (content (l_rotated L))).
Proof.
  intros H. apply add_text_watermark_body_inv in H.
  destruct (bf_size _ _ _ _ _ _ _ _ _ H) as (si & Hsi & Hs).
  destruct (bf_padding _ _ _ _ _ _ _ _ _ H) as (pi & Hpi & Hp).
  pose proof (bf_margin _ _ _ _ _ _ _ _ _ H) as Hm.
  pose proof (bf_font _ _ _ _ _ _ _ _ _ H) as Hf.
  pose proof (bf_text_img _ _ _ _ _ _ _ _ _ H) as Ht.
  assert (Sz : (l_w L, l_h L) = oriented_size img).
  { rewrite (bf_w _ _ _ _ _ _ _ _ _ H), (bf_h _ _ _ _ _ _ _ _ _ H),
      (bf_img _ _ _ _ _ _ _ _ _ H), <- exif_transpose_size.
    unfold width, height. now destruct (size (exif_transpose img)). }
  assert (Mn : Z.min (l_w L) (l_h L) = Z.min (width img) (height img)).
  { rewrite <- oriented_size_min, <- Sz. reflexivity. }
  rewrite Mn in Hsi, Hm.
  exists si, pi.
  split; [exact Hsi|]. split; [exact Hs|]. split; [exact Hm|].
  split; [exact Hpi|]. split; [exact Hp|].
  split; [lia|]. split; [lia|].
  split; [rewrite Hf, (bf_fp _ _ _ _ _ _ _ _ _ H); reflexivity|].
  split.
  { intros p sz E. rewrite Hf in E. unfold load_font in E.
    destruct (l_fp L) as [q|]; [|discriminate].
    destruct (truetype_error env q (l_size L)); [discriminate|].
    now injection E as _ <-. }
  split.
  { intros b0 b1 b2 b3 B. rewrite Ht. cbn [size].
    rewrite (bf_tw _ _ _ _ _ _ _ _ _ H), (bf_th _ _ _ _ _ _ _ _ _ H), B.
    reflexivity. }
  split; [rewrite Ht; reflexivity|].
  split; [exact (bf_rotated _ _ _ _ _ _ _ _ _ H)|].
  split; [exact Sz|].
  split; [exact (bf_x _ _ _ _ _ _ _ _ _ H)|].
  split; [exact (bf_y _ _ _ _ _ _ _ _ _ H)|].
  rewrite (bf_combined _ _ _ _ _ _ _ _ _ H),
    (bf_txt_layer _ _ _ _ _ _ _ _ _ H), (bf_img _ _ _ _ _ _ _ _ _ H).
  reflexivity.
Qed.

(** C3 where Arial is installed, on a picture of 1000 by 800: the face is
    loaded at size 32, the text image is the text (6 glyphs of 16 by 32)
    and 6 pixels on every side, and the margin left at the right and at the
    bottom is 16. *)
Lemma C3_geometry_truncates_witness :
  exists L,
    add_text_watermark_body demo_env_arial photo "SAMPLE" 0.3 0.04 0.02 None
      45 = Ok L /\
    l_size L = 32 /\ l_margin L = 16 /\ l_padding L = 6 /\
    l_font L = FreeTypeFont "/Library/Fonts/Arial.ttf" 32 /\
    size (l_text_img L) = (96 + 6 * 2, 32 + 6 * 2) /\
    (l_x L, l_y L) = (1000 - 152 - 16, 800 - 152 - 16) /\
    exists si pi,
      int_times (Z.min (width photo) (height photo)) 0.04 = Ok si /\
      l_size L = Z.max 12 si /\
      int_times (Z.min (width photo) (height photo)) 0.02
        = Ok (l_margin L) /\
      int_times (l_size L) 0.2 = Ok pi /\
      l_padding L = Z.max 2 pi.
Proof.
  destruct (add_text_watermark_body demo_env_arial photo "SAMPLE" 0.3 0.04
              0.02 None 45) as [L|e] eqn:E; [|vm_compute in E; discriminate].
  exists L. split; [reflexivity|].
  destruct (C3_geometry_truncates demo_env_arial photo "SAMPLE" 0.3 0.04 0.02
              None 45 L E) as (si & pi & H1 & H2 & H3 & H4 & H5 & _).
  vm_compute in E. injection E as <-.
  repeat (split; [reflexivity|]).
  exists si, pi. repeat split; assumption.
Defined.

(** C3 as the specification states it fails: on a 100 by 100 picture with
    scale and margin ratio 0.1875 both products are 18.75, whose only
    nearest integer is 19, yet font size and margin are 18; and the padding
    is 3 although 18 * 0.2 is nearest to 4. *)
Lemma C3_geometry_is_not_rounded :
  exists L f g,
    add_text_watermark_body demo_env small_photo "x" 0.125 0.1875 0.1875
      None 0 = Ok L /\
    (l_w L, l_h L) = (100, 100) /\
    PyFloat.int_mul (Z.min 100 100) 0.1875 = Ok f /\
    (forall z, PyFloat.nearest_int f z -> Z.max 12 z = 19 /\ z = 19) /\
    l_size L = 18 /\
    l_margin L = 18 /\
    PyFloat.int_mul (l_size L) 0.2 = Ok g /\
    (forall z, PyFloat.nearest_int g z -> Z.max 2 z = 4) /\
    l_padding L = 3.
Proof.
  eexists _, 18.75%float, (18 * 0.2)%float.
  split; [vm_compute; reflexivity|].
  cbn [l_w l_h l_size l_margin l_padding].
  split; [reflexivity|]. split; [vm_compute; reflexivity|].
  split.
  { intros z Hz. unfold PyFloat.nearest_int in Hz.
    change (Prim2SF 18.75) with (S754_finite false 5277655813324800 (-48)) in Hz.
    cbv beta iota zeta in Hz.
    change (0 <=? -48) with false in Hz. cbv iota in Hz.
    change (2 ^ (- -48)) with 281474976710656 in Hz. lia. }
  split; [reflexivity|]. split; [reflexivity|].
  split; [vm_compute; reflexivity|].
  split; [|reflexivity].
  intros z Hz. unfold PyFloat.nearest_int in Hz.
  change (Prim2SF (18 * 0.2)) with (S754_finite false 8106479329266893 (-51)) in Hz.
  cbv beta iota zeta in Hz.
  change (0 <=? -51) with false in Hz. cbv iota in Hz.
  change (2 ^ (- -51)) with 2251799813685248 in Hz. lia.
Qed.

(* ================================================================= *)
(** ** Placement *)

(** C4: on a picture of width W and height H (orientation applied) the
    rotated text image is pasted at
    [(max(0, W - rotated.width - margin), max(0, H - rotated.height - margin))];
    neither coordinate is negative.  What is pasted is the rotated image
    itself, of the size [rotate] gave it, and the layer it is pasted on
    keeps the size of the picture: a raster too large is cut, not scaled. *)
Theorem C4_paste_offset (env : Env) (img : Image) (text : string)
    (opacity scale margin_ratio : float) (font_path : option string)
    (angle : float) (L : Locals) :
  add_text_watermark_body env img text opacity scale margin_ratio font_path
    angle = Ok L ->
  (l_w L, l_h L) = size (exif_transpose img) /\
  l_x L = Z.max 0 (l_w L - width (l_rotated L) - l_margin L) /\
  l_y L = Z.max 0 (l_h L - height (l_rotated L) - l_margin L) /\
  0 <= l_x L /\ 0 <= l_y L /\
  size (l_rotated L) = rotate_size env (size (l_text_img L)) angle /\
  size (l_txt_layer L) = (l_w L, l_h L) /\
  content (l_txt_layer L) =
    px_paste (px_new (255, 255, 255, 0)) (content (l_rotated L))
      (l_x L, l_y L) (content (l_rotated L)).
Proof.
  intros H. apply add_text_watermark_body_inv in H.
  pose proof (bf_x _ _ _ _ _ _ _ _ _ H) as Hx.
  pose proof (bf_y _ _ _ _ _ _ _ _ _ H) as Hy.
  pose proof (bf_rotated _ _ _ _ _ _ _ _ _ H) as Hr.
  pose proof (bf_txt_layer _ _ _ _ _ _ _ _ _ H) as Ht.
  repeat split; try lia.
  - rewrite (bf_w _ _ _ _ _ _ _ _ _ H), (bf_h _ _ _ _ _ _ _ _ _ H),
      (bf_img _ _ _ _ _ _ _ _ _ H).
    unfold width, height. now destruct (size (exif_transpose img)).
  - rewrite Hr. reflexivity.
  - rewrite Ht. reflexivity.
  - rewrite Ht. reflexivity.
Qed.

Lemma C4_paste_offset_witness :
  exists L,
    add_text_watermark_body demo_env photo "SAMPLE" 0.3 0.04 0.02 None 45
      = Ok L /\
    (l_w L, l_h L) = size (exif_transpose photo) /\
    l_x L = Z.max 0 (l_w L - width (l_rotated L) - l_margin L) /\
    l_y L = Z.max 0 (l_h L - height (l_rotated L) - l_margin L) /\
    0 <= l_x L /\ 0 <= l_y L /\
    size (l_rotated L) = rotate_size demo_env (size (l_text_img L)) 45 /\
    size (l_txt_layer L) = (l_w L, l_h L) /\
    content (l_txt_layer L) =
      px_paste (px_new (255, 255, 255, 0)) (content (l_rotated L))
        (l_x L, l_y L) (content (l_rotated L)).
Proof.
  destruct (add_text_watermark_body demo_env photo "SAMPLE" 0.3 0.04 0.02
              None 45) as [L|e] eqn:E; [|vm_compute in E; discriminate].
  exists L. split; [reflexivity|].
  exact (C4_paste_offset demo_env photo "SAMPLE" 0.3 0.04 0.02 None 45 L E).
Defined.

(* ================================================================= *)
(** ** The mode of the result *)

Lemma str_in_RGB_L (m : string) :
  str_in m ["RGB"; "L"] = true <-> m = "RGB" \/ m = "L".
Proof.
  unfold str_in. cbn [existsb]. rewrite !orb_true_iff, !String.eqb_eq.
  intuition discriminate.
Qed.

(** C6: with [combined] the RGBA composite of line 69, the call returns
    [combined] itself when the picture was RGBA, [combined.convert(mode)]
    when its mode was RGB or L (so an image of that mode, or the exception
    of the conversion), and otherwise [combined.convert("RGB")], or
    [combined] itself when that conversion raises. *)
Theorem C6_mode_restoration (env : Env) (img : Image) (text : string)
    (opacity scale margin_ratio : float) (font_path : option string)
    (angle : float) (L : Locals) :
  add_text_watermark_body env img text opacity scale margin_ratio font_path
    angle = Ok L ->
  let result :=
    add_text_watermark env img text opacity scale margin_ratio font_path angle
  in
  mode (l_combined L) = "RGBA" /\
  (mode img = "RGBA" -> result = Ok (l_combined L)) /\
  (mode img = "RGB" \/ mode img = "L" ->
   result = convert env (l_combined L) (mode img) /\
   forall out, result = Ok out -> mode out = mode img) /\
  (mode img <> "RGBA" -> mode img <> "RGB" -> mode img <> "L" ->
   match convert env (l_combined L) "RGB" with
   | Ok rgb => result = Ok rgb /\ mode rgb = "RGB"
   | Raise _ => result = Ok (l_combined L)
   end).
Proof.
  intros H result. unfold result, add_text_watermark. rewrite H. cbn [bind].
  apply add_text_watermark_body_inv in H.
  pose proof (bf_img _ _ _ _ _ _ _ _ _ H) as Hi.
  assert (Hc : mode (l_combined L) = "RGBA").
  { rewrite (bf_combined _ _ _ _ _ _ _ _ _ H). reflexivity. }
  clear H. unfold restore_mode. rewrite Hi, exif_transpose_mode.
  split; [exact Hc|]. split; [|split].
  - intros ->. reflexivity.
  - intros Hm.
    assert (N : (mode img =? "RGBA")%string = false).
    { apply String.eqb_neq. destruct Hm as [-> | ->]; discriminate. }
    rewrite N. apply str_in_RGB_L in Hm. rewrite Hm.
    split; [reflexivity|].
    intros out Ho. apply convert_Ok in Ho. subst out. reflexivity.
  - intros N1 N2 N3.
    apply String.eqb_neq in N1. rewrite N1.
    destruct (str_in (mode img) ["RGB"; "L"]) eqn:S.
    + apply str_in_RGB_L in S. tauto.
    + destruct (convert env (l_combined L) "RGB") as [rgb|e] eqn:E;
        [|reflexivity].
      split; [reflexivity|]. apply convert_Ok in E. subst rgb. reflexivity.
Qed.

(** A palette picture in a world where nothing converts to RGB: the
    composite itself comes back. *)
Lemma C6_mode_restoration_witness :
  exists L,
    add_text_watermark_body demo_env_no_rgb palette_photo "SAMPLE" 0.3 0.04
      0.02 None 45 = Ok L /\
    let result :=
      add_text_watermark demo_env_no_rgb palette_photo "SAMPLE" 0.3 0.04 0.02
        None 45 in
    mode (l_combined L) = "RGBA" /\
    (mode palette_photo = "RGBA" -> result = Ok (l_combined L)) /\
    (mode palette_photo = "RGB" \/ mode palette_photo = "L" ->
     result = convert demo_env_no_rgb (l_combined L) (mode palette_photo) /\
     forall out, result = Ok out -> mode out = mode palette_photo) /\
    (mode palette_photo <> "RGBA" -> mode palette_photo <> "RGB" ->
     mode palette_photo <> "L" ->
     match convert demo_env_no_rgb (l_combined L) "RGB" with
     | Ok rgb => result = Ok rgb /\ mode rgb = "RGB"
     | Raise _ => result = Ok (l_combined L)
     end).
Proof.
  destruct (add_text_watermark_body demo_env_no_rgb palette_photo "SAMPLE"
              0.3 0.04 0.02 None 45) as [L|e] eqn:E;
    [|vm_compute in E; discriminate].
  exists L. split; [reflexivity|].
  exact (C6_mode_restoration demo_env_no_rgb palette_photo "SAMPLE" 0.3 0.04
           0.02 None 45 L E).
Defined.

(* ================================================================= *)
(** ** Fonts *)

Lemma find_None_iff (A : Type) (f : A -> bool) (l : list A) :
  find f l = None <-> forall x, In x l -> f x = false.
Proof.
  split.
  - intros H x Hx. exact (find_none f l H x Hx).
  - induction l as [|a l IH]; intros H; [reflexivity|].
    cbn [find]. rewrite (H a (or_introl eq_refl)).
    apply IH. intros x Hx. apply H. right. exact Hx.
Qed.

(** [find_font] finds nothing exactly when the explicit path names no
    existing file and no candidate exists. *)
Lemma find_font_None (env : Env) (explicit : option string) :
  find_font env explicit = None <->
  no_explicit_font env explicit /\
  forall c, In c candidates -> fs_is_file env (Path_of c) = false.
Proof.
  unfold find_font, no_explicit_font, truthy.
  destruct explicit as [s|].
  - destruct (String.eqb_spec s "") as [->|N]; cbn [negb].
    + rewrite find_None_iff. intuition.
    + destruct (fs_is_file env (Path_of s)) eqn:F.
      * split; [discriminate|]. intros [[?|?] _]; congruence.
      * rewrite find_None_iff. intuition.
  - rewrite find_None_iff. intuition.
Qed.

(** C10: when [find_font] returns no path (the explicit path names no
    existing file and no candidate exists) or the file found does not load,
    the font is the one of [ImageFont.load_default()], which is given no
    size: the text is measured and drawn with it, and its extent depends on
    the text alone, not on the picture or on [scale]. *)
Theorem C10_default_font (env : Env) (img : Image) (text : string)
    (opacity scale margin_ratio : float) (font_path : option string)
    (angle : float) (L : Locals) :
  add_text_watermark_body env img text opacity scale margin_ratio font_path
    angle = Ok L ->
  falls_back env font_path (l_size L) ->
  (find_font env font_path = None <->
   no_explicit_font env font_path /\
   forall c, In c candidates -> fs_is_file env (Path_of c) = false) /\
  l_font L = DefaultFont /\
  (l_tw L, l_th L) = default_text_size env text /\
  exists canvas xy1 xy2 c1 c2,
    content (l_text_img L) =
      px_text (px_text canvas xy1 text DefaultFont c1) xy2 text DefaultFont c2.
Proof.
  intros H F. split; [apply find_font_None|].
  apply add_text_watermark_body_inv in H.
  pose proof (bf_fp _ _ _ _ _ _ _ _ _ H) as Hfp.
  pose proof (bf_font _ _ _ _ _ _ _ _ _ H) as Hf.
  pose proof (bf_tw _ _ _ _ _ _ _ _ _ H) as Htw.
  pose proof (bf_th _ _ _ _ _ _ _ _ _ H) as Hth.
  pose proof (bf_text_img _ _ _ _ _ _ _ _ _ H) as Hti.
  assert (D : l_font L = DefaultFont).
  { rewrite Hf, Hfp. unfold falls_back in F. unfold load_font.
    destruct (find_font env font_path) as [p|]; [|reflexivity].
    destruct (truetype_error env p (l_size L)); [reflexivity|congruence]. }
  split; [exact D|]. split.
  - rewrite Htw, Hth, D. unfold default_text_size.
    destruct (textbbox env DefaultFont text) as [[[b0 b1] b2] b3]. reflexivity.
  - rewrite Hti, D. cbn [content]. eauto 6.
Qed.

Lemma C10_default_font_witness :
  exists L,
    add_text_watermark_body demo_env photo "SAMPLE" 0.3 0.04 0.02 None 45
      = Ok L /\
    falls_back demo_env None (l_size L) /\
    (find_font demo_env None = None <->
     no_explicit_font demo_env None /\
     forall c, In c candidates -> fs_is_file demo_env (Path_of c) = false) /\
    l_font L = DefaultFont /\
    (l_tw L, l_th L) = default_text_size demo_env "SAMPLE" /\
    exists canvas xy1 xy2 c1 c2,
      content (l_text_img L) =
        px_text (px_text canvas xy1 "SAMPLE" DefaultFont c1) xy2 "SAMPLE"
          DefaultFont c2.
Proof.
  destruct (add_text_watermark_body demo_env photo "SAMPLE" 0.3 0.04 0.02
              None 45) as [L|e] eqn:E; [|vm_compute in E; discriminate].
  exists L. split; [reflexivity|].
  assert (F : falls_back demo_env None (l_size L)) by exact I.
  split; [exact F|].
  exact (C10_default_font demo_env photo "SAMPLE" 0.3 0.04 0.02 None 45 L E F).
Defined.

(* ================================================================= *)
(** ** Saving *)

Lemma save_saved (env : Env) (w w' : World) (im : Image) (p : Path)
    (kw : kwargs) (r : result unit) :
  save env w im p kw = (w', r) ->
  made_dirs w' = made_dirs w /\
  match r with
  | Ok _ => saved w' = (p, im, kw) :: saved w
  | Raise _ => saved w' = saved w
  end.
Proof.
  unfold save. destruct (save_error env p im kw); intros [= <- <-];
    split; reflexivity.
Qed.

Lemma mkdir_saved (env : Env) (w w' : World) (p : Path) (r : result unit) :
  mkdir env w p = (w', r) -> saved w' = saved w.
Proof.
  unfold mkdir. destruct (fs_mkdir_error env p); now intros [= <- <-].
Qed.

(** C7: for an input whose suffix, lowered, is [.jpg] or [.jpeg]: once the
    input is opened and watermarked, the call converts the watermarked
    image to RGB and saves the converted image under the output path with
    [quality=90, optimize=True]; it raises, with nothing saved, when the
    conversion or the save raises.  Whatever the collaborators do, the
    only thing the call ever saves is that RGB image with those two
    options: the saved image has no alpha channel, whatever the mode of
    the source. *)
Theorem C7_jpeg_is_saved_as_rgb (env : Env) (w : World)
    (in_path out_path : Path) (a : Params) :
  str_in (lower (suffix in_path)) [".jpg"; ".jpeg"] = true ->
  (forall im wm,
     fs_mkdir_error env (parent out_path) = None ->
     open_image env in_path = Ok im ->
     add_text_watermark env im (text a) (opacity a) (scale a)
       (margin_ratio a) (font_path a) (angle a) = Ok wm ->
     let rgb := {| size := size wm; mode := "RGB";
                   orientation := orientation wm;
                   content := px_convert (content wm) "RGB" |} in
     let kw := [("quality", PyInt 90); ("optimize", PyBool true)] in
     let w1 := {| made_dirs := parent out_path :: made_dirs w;
                  saved := saved w |} in
     has_alpha (mode rgb) = false /\
     process_image_file env w in_path out_path a =
       match convert_error env wm "RGB" with
       | Some e => (w1, Raise e)
       | None =>
           match save_error env out_path rgb kw with
           | Some e => (w1, Raise e)
           | None =>
               ({| made_dirs := made_dirs w1;
                   saved := (out_path, rgb, kw) :: saved w |}, Ok tt)
           end
       end) /\
  match process_image_file env w in_path out_path a with
  | (w', Ok _) =>
      exists im wm rgb,
        open_image env in_path = Ok im /\
        add_text_watermark env im (text a) (opacity a) (scale a)
          (margin_ratio a) (font_path a) (angle a) = Ok wm /\
        convert env wm "RGB" = Ok rgb /\
        saved w' =
          (out_path, rgb, [("quality", PyInt 90); ("optimize", PyBool true)])
            :: saved w /\
        mode rgb = "RGB" /\ has_alpha (mode rgb) = false
  | (w', Raise _) => saved w' = saved w
  end.
Proof.
  intros Hext. split.
  - intros im wm Hmk Ho Hw. cbv zeta. split; [reflexivity|].
    unfold process_image_file, mkdir. rewrite Hmk, Hext, Ho. cbn [bind].
    rewrite Hw. cbn [bind]. unfold convert.
    destruct (convert_error env wm "RGB"); cbn [bind]; [reflexivity|].
    unfold save. cbn [made_dirs saved].
    destruct (save_error env out_path _ _); reflexivity.
  - unfold process_image_file.
    destruct (mkdir env w (parent out_path)) as [w1 [[]|e]] eqn:Hmk;
      pose proof (mkdir_saved _ _ _ _ _ Hmk) as S1; [|exact S1].
    rewrite Hext.
    destruct (open_image env in_path) as [im|e] eqn:Ho; cbn [bind];
      [|exact S1].
    destruct (add_text_watermark env im (text a) (opacity a) (scale a)
                (margin_ratio a) (font_path a) (angle a)) as [wm|e] eqn:Hw;
      cbn [bind]; [|exact S1].
    destruct (convert env wm "RGB") as [rgb|e] eqn:Hc; cbn [bind];
      [|exact S1].
    destruct (save env w1 rgb out_path
                [("quality", PyInt 90); ("optimize", PyBool true)])
      as [w2 [[]|e]] eqn:Hs; apply save_saved in Hs; destruct Hs as [_ Hs].
    + exists im, wm, rgb. rewrite Hs, S1.
      apply convert_Ok in Hc as E. subst rgb. cbn [mode].
      repeat split; solve [reflexivity | exact Hc | exact Hw].
    + congruence.
Qed.

(** C7 on the JPEG of the small world: the call returns, and what it has
    saved is the watermarked picture in mode RGB, with the two options. *)
Lemma C7_jpeg_is_saved_as_rgb_witness :
  exists wm,
    add_text_watermark demo_env photo "SAMPLE" 0.3 0.04 0.02 None 45
      = Ok wm /\
    process_image_file demo_env world0 (abs_path ["pics"; "a.jpg"])
      (abs_path ["pics"; "watermarked"; "a.jpg"]) demo_params
    = ({| made_dirs := [abs_path ["pics"; "watermarked"]];
          saved :=
            [(abs_path ["pics"; "watermarked"; "a.jpg"],
              {| size := (1000, 800); mode := "RGB"; orientation := None;
                 content := px_convert (content wm) "RGB" |},
              [("quality", PyInt 90); ("optimize", PyBool true)])] |},
       Ok tt).
Proof.
  destruct (add_text_watermark demo_env photo "SAMPLE" 0.3 0.04 0.02 None 45)
    as [wm|e] eqn:E; [|vm_compute in E; discriminate].
  exists wm. split; [reflexivity|].
  destruct (C7_jpeg_is_saved_as_rgb demo_env world0
              (abs_path ["pics"; "a.jpg"])
              (abs_path ["pics"; "watermarked"; "a.jpg"]) demo_params
              eq_refl) as [F _].
  destruct (F photo wm eq_refl eq_refl E) as [_ ->].
  vm_compute in E. injection E as <-. reflexivity.
Defined.

(* ================================================================= *)
(** ** The directory scan *)

Lemma strip_prefix_Some (pre l r : list string) :
  strip_prefix pre l = Some r <-> l = (pre ++ r)%list.
Proof.
  revert l. induction pre as [|a pre IH]; intros l; cbn [strip_prefix app].
  - split; [now intros [= ->]|now intros ->].
  - destruct l as [|b l]; [split; discriminate|].
    destruct (String.eqb_spec a b) as [->|N].
    + rewrite IH. split; [now intros ->|now intros [= ->]].
    + split; [discriminate|]. intros [= <- _]. contradiction.
Qed.

Lemma relative_to_Ok (p other rel : Path) :
  relative_to p other = Ok rel <->
  anchor p = anchor other /\ anchor rel = "" /\
  parts p = (parts other ++ parts rel)%list.
Proof.
  unfold relative_to.
  destruct (String.eqb_spec (anchor p) (anchor other)) as [E|N].
  - destruct (strip_prefix (parts other) (parts p)) as [r|] eqn:S.
    + apply strip_prefix_Some in S. split.
      * intros [= <-]. auto.
      * intros (_ & Ha & Hp). f_equal. destruct rel as [ra rp].
        cbn [anchor parts] in *. subst ra. f_equal.
        rewrite S in Hp. now apply app_inv_head in Hp.
    + split; [discriminate|]. intros (_ & _ & Hp).
      apply strip_prefix_Some in Hp. congruence.
  - split; [discriminate|]. intros (E & _). contradiction.
Qed.

(** [is_subpath] answers whether the path resolves inside [parent]; a path
    that does not resolve is not inside. *)
Lemma is_subpath_true (env : Env) (p root : Path) :
  is_subpath env p root = true <-> resolves_inside env p root.
Proof.
  unfold is_subpath, resolves_inside, is_prefix_path. split.
  - destruct (fs_resolve env p) as [a|]; [|discriminate].
    destruct (fs_resolve env root) as [b|]; [|discriminate].
    destruct (relative_to a b) as [rel|] eqn:R; [|discriminate].
    intros _. apply relative_to_Ok in R. destruct R as (Ha & _ & Hp).
    exists a, b, (parts rel). auto.
  - intros (a & b & rest & -> & -> & Ha & Hp).
    destruct (relative_to a b) as [rel|e] eqn:R; [reflexivity|].
    assert (R' : relative_to a b = Ok {| anchor := ""; parts := rest |})
      by (apply relative_to_Ok; auto).
    congruence.
Qed.

(** Every path that [rglob] or [glob] yields lies below the root, so its
    mirror exists. *)
Lemma below_mirrors (input_dir output_dir p : Path) :
  below input_dir p = true \/ child_of input_dir p = true ->
  exists rel, relative_to p input_dir = Ok rel /\
              mirrors input_dir output_dir p (truediv output_dir rel).
Proof.
  intros H.
  assert (exists rest, anchor p = anchor input_dir /\
                       strip_prefix (parts input_dir) (parts p) = Some rest)
    as (rest & Ha & Hs).
  { unfold below, child_of in H.
    destruct H as [H|H]; apply andb_true_iff in H; destruct H as [Ha H];
      apply String.eqb_eq in Ha;
      destruct (strip_prefix (parts input_dir) (parts p)) as [rest|];
      try discriminate; eauto. }
  apply strip_prefix_Some in Hs.
  assert (R : relative_to p input_dir = Ok {| anchor := ""; parts := rest |})
    by (apply relative_to_Ok; auto).
  eexists. split; [exact R|].
  exists rest. repeat split; assumption.
Qed.

Lemma str_in_In (s : string) (xs : list string) :
  str_in s xs = true <-> In s xs.
Proof.
  unfold str_in. rewrite existsb_exists. split.
  - intros (x & Hx & E). apply String.eqb_eq in E. now subst x.
  - intros H. exists s. split; [exact H|apply String.eqb_refl].
Qed.

(** One turn of the generator at a path of the walk: it raises what
    [is_file] raises, and otherwise yields the mirrored pair or nothing. *)
Lemma files_at_cases (env : Env) (input_dir output_dir p : Path) :
  below input_dir p = true \/ child_of input_dir p = true ->
  match files_at env input_dir output_dir p with
  | Raise e => fs_is_file_error env p = Some e
  | Ok None =>
      fs_is_file_error env p = None /\
      (fs_is_file env p && str_in (lower (suffix p)) ALLOWED_EXTS
       && negb (is_subpath env p output_dir) = false)
  | Ok (Some f) =>
      fs_is_file_error env p = None /\
      fs_is_file env p = true /\
      str_in (lower (suffix p)) ALLOWED_EXTS = true /\
      is_subpath env p output_dir = false /\
      fst f = p /\ mirrors input_dir output_dir p (snd f)
  end.
Proof.
  intros Hb. unfold files_at, is_image_file, is_file.
  destruct (fs_is_file_error env p) as [e|]; cbn [bind]; [reflexivity|].
  destruct (below_mirrors input_dir output_dir p Hb) as (rel & Hrel & Hm).
  destruct (fs_is_file env p && str_in (lower (suffix p)) ALLOWED_EXTS
            && negb (is_subpath env p output_dir)) eqn:Hc.
  - rewrite Hrel. cbn [bind fst snd].
    apply andb_true_iff in Hc. destruct Hc as [Hc Hs].
    apply andb_true_iff in Hc. destruct Hc as [Hf Hx].
    apply negb_true_iff in Hs. auto 10.
  - auto.
Qed.

Lemma mirrors_unique (input_dir output_dir p d d' : Path) :
  mirrors input_dir output_dir p d -> mirrors input_dir output_dir p d' ->
  d = d'.
Proof.
  intros (r1 & _ & P1 & _ & ->) (r2 & _ & P2 & _ & ->).
  rewrite P1 in P2. apply app_inv_head in P2. now subst r2.
Qed.

(** The generator drawn to its end: what it yields, and when it ends
    without an exception. *)
Lemma files_of_spec (env : Env) (input_dir output_dir : Path) (ps : list Path)
    (walk_end : option exn) :
  (forall p, In p ps ->
     below input_dir p = true \/ child_of input_dir p = true) ->
  let g := files_of env input_dir output_dir ps walk_end in
  (forall p d, In (p, d) (yields g) ->
     In p ps /\ fs_is_file_error env p = None /\
     fs_is_file env p = true /\
     str_in (lower (suffix p)) ALLOWED_EXTS = true /\
     is_subpath env p output_dir = false /\
     mirrors input_dir output_dir p d) /\
  (raised g = None <->
     walk_end = None /\ forall p, In p ps -> fs_is_file_error env p = None) /\
  (raised g = None ->
   forall p d,
     In p ps -> fs_is_file env p = true ->
     str_in (lower (suffix p)) ALLOWED_EXTS = true ->
     is_subpath env p output_dir = false ->
     mirrors input_dir output_dir p d ->
     In (p, d) (yields g)).
Proof.
  induction ps as [|q ps IH]; intros Hb; cbv zeta.
  - cbn [files_of yields raised In]. split; [tauto|]. split; [|tauto].
    split; [intros ->; split; [reflexivity|tauto]|tauto].
  - destruct IH as (S & R & C).
    { intros p Hp. apply Hb. right. exact Hp. }
    cbv zeta in S, R, C. cbn [files_of].
    pose proof (files_at_cases env input_dir output_dir q
                  (Hb q (or_introl eq_refl))) as Hq.
    destruct (files_at env input_dir output_dir q) as [[[q' d']|]|e].
    + cbn [fst snd] in Hq. destruct Hq as (E & F & X & I & -> & M).
      cbn [yields raised]. split; [|split].
      * intros p d [[= <- <-]|H]; [cbn [In]; auto 10|].
        apply S in H. cbn [In]. tauto.
      * rewrite R. split.
        -- intros (W & A). split; [exact W|].
           intros p [<-|Hp]; [exact E|auto].
        -- intros (W & A). split; [exact W|]. intros p Hp. apply A. now right.
      * intros Hr p d [<-|Hp] Hf Hx Hs Hm.
        -- left. f_equal. eapply mirrors_unique; eassumption.
        -- right. eapply C; eassumption.
    + destruct Hq as (E & N). split; [|split].
      * intros p d H. apply S in H. cbn [In]. tauto.
      * rewrite R. split.
        -- intros (W & A). split; [exact W|].
           intros p [<-|Hp]; [exact E|auto].
        -- intros (W & A). split; [exact W|]. intros p Hp. apply A. now right.
      * intros Hr p d [<-|Hp] Hf Hx Hs Hm.
        -- rewrite Hf, Hx, Hs in N. discriminate.
        -- eapply C; eassumption.
    + cbn [yields raised]. split; [|split].
      * intros p d [].
      * split; [discriminate|]. intros (_ & A).
        rewrite (A q (or_introl eq_refl)) in Hq. discriminate.
      * discriminate.
Qed.

Lemma walk_below (env : Env) (input_dir : Path) (nr : bool) (p : Path) :
  In p (yields (walk env input_dir nr)) <->
  In p (fs_listing env) /\
  (if nr then child_of input_dir p else below input_dir p) = true.
Proof.
  unfold walk, rglob, glob. destruct nr; cbn [negb yields]; apply filter_In.
Qed.

Lemma walk_raised (env : Env) (input_dir : Path) (nr : bool) :
  raised (walk env input_dir nr) = fs_listing_error env.
Proof. unfold walk. now destruct nr. Qed.

(** C8: the scan yields a pair (p, d) only for a path p of the walk under
    the input root (at any depth, or an entry of the root itself with
    [--no-recursive]) that is a regular file, whose suffix lowered is one
    of the seven extensions, that does not resolve inside the output root,
    d lying under the output root where p lies under the input root; and
    it yields every such pair when it is not cut short.  It is cut short,
    by the exception, exactly when the walk raises or [is_file] does on a
    path of the walk. *)
Theorem C8_directory_scan (env : Env) (input_dir output_dir : Path)
    (no_recursive : bool) :
  let g := files env input_dir output_dir no_recursive in
  let selects (p d : Path) :=
    In p (fs_listing env) /\
    (if no_recursive then child_of input_dir p else below input_dir p)
      = true /\
    fs_is_file env p = true /\
    In (lower (suffix p))
       [".jpg"; ".jpeg"; ".png"; ".webp"; ".bmp"; ".tif"; ".tiff"] /\
    ~ resolves_inside env p output_dir /\
    mirrors input_dir output_dir p d in
  (forall p d, In (p, d) (yields g) -> selects p d) /\
  (raised g = None <->
     fs_listing_error env = None /\
     forall p, In p (fs_listing env) ->
       (if no_recursive then child_of input_dir p else below input_dir p)
         = true ->
       fs_is_file_error env p = None) /\
  (raised g = None -> forall p d, selects p d -> In (p, d) (yields g)).
Proof.
  cbv zeta. unfold files.
  destruct (files_of_spec env input_dir output_dir
              (yields (walk env input_dir no_recursive))
              (raised (walk env input_dir no_recursive))) as (S & R & C).
  { intros p Hp. apply walk_below in Hp. destruct no_recursive; tauto. }
  cbv zeta in S, R, C. split; [|split].
  - intros p d H. apply S in H.
    destruct H as (Hp & _ & Hf & Hx & Hs & Hm).
    apply walk_below in Hp. apply str_in_In in Hx.
    apply not_true_iff_false in Hs. rewrite is_subpath_true in Hs.
    unfold ALLOWED_EXTS in Hx. tauto.
  - rewrite R, walk_raised. split; intros (W & A); (split; [exact W|]).
    + intros p H1 H2. apply A. apply walk_below. auto.
    + intros p Hp. apply walk_below in Hp. now apply A.
  - intros Hr p d (Hp & Hu & Hf & Hx & Hs & Hm).
    apply (C Hr); try assumption.
    + apply walk_below. auto.
    + apply str_in_In. exact Hx.
    + apply not_true_iff_false. rewrite is_subpath_true. exact Hs.
Qed.

(** C8 on the small world, scanned from [/pics] into [/pics/watermarked]:
    three files are selected, [b.PNG] among them; the text file, the
    directories and the file already under the output root are not. *)
Lemma C8_directory_scan_witness :
  files demo_env (abs_path ["pics"]) (abs_path ["pics"; "watermarked"]) false
  = {| yields :=
         [(abs_path ["pics"; "a.jpg"],
           abs_path ["pics"; "watermarked"; "a.jpg"]);
          (abs_path ["pics"; "sub"; "b.PNG"],
           abs_path ["pics"; "watermarked"; "sub"; "b.PNG"]);
          (abs_path ["pics"; "sub"; "broken.jpeg"],
           abs_path ["pics"; "watermarked"; "sub"; "broken.jpeg"])];
       raised := None |} /\
  (fs_is_file demo_env (abs_path ["pics"; "sub"; "b.PNG"]) = true /\
   In (lower (suffix (abs_path ["pics"; "sub"; "b.PNG"])))
      [".jpg"; ".jpeg"; ".png"; ".webp"; ".bmp"; ".tif"; ".tiff"] /\
   ~ resolves_inside demo_env (abs_path ["pics"; "sub"; "b.PNG"])
       (abs_path ["pics"; "watermarked"]) /\
   mirrors (abs_path ["pics"]) (abs_path ["pics"; "watermarked"])
     (abs_path ["pics"; "sub"; "b.PNG"])
     (abs_path ["pics"; "watermarked"; "sub"; "b.PNG"])).
Proof.
  split; [vm_compute; reflexivity|].
  destruct (C8_directory_scan demo_env (abs_path ["pics"])
              (abs_path ["pics"; "watermarked"]) false) as (S & _ & _).
  cbv zeta in S.
  assert (H : In (abs_path ["pics"; "sub"; "b.PNG"],
                  abs_path ["pics"; "watermarked"; "sub"; "b.PNG"])
                (yields (files demo_env (abs_path ["pics"])
                           (abs_path ["pics"; "watermarked"]) false))).
  { vm_compute. right. left. reflexivity. }
  destruct (S _ _ H) as (_ & _ & H1 & H2 & H3 & H4).
  repeat split; assumption.
Defined.

(* ================================================================= *)
(** ** The loop of [main] *)



(** A call of [process_image_file] saves one file, at [out_path], when it
    returns, and none when it raises. *)
Lemma process_image_file_saved (env : Env) (w : World)
    (in_path out_path : Path) (a : Params) :
  match process_image_file env w in_path out_path a with
  | (w', Ok _) => exists im kw, saved w' = (out_path, im, kw) :: saved w
  | (w', Raise _) => saved w' = saved w
  end.
Proof.
  unfold process_image_file.
  destruct (mkdir env w (parent out_path)) as [w1 [[]|e]] eqn:Hmk;
    pose proof (mkdir_saved _ _ _ _ _ Hmk) as S1; [|exact S1].
  destruct (open_image env in_path) as [im|e]; cbn [bind]; [|exact S1].
  destruct (add_text_watermark env im (text a) (opacity a) (scale a)
              (margin_ratio a) (font_path a) (angle a)) as [wm|e];
    cbn [bind]; [|exact S1].
  assert (Sv : forall x kw,
    match save env w1 x out_path kw with
    | (w', Ok _) => exists im kw, saved w' = (out_path, im, kw) :: saved w
    | (w', Raise _) => saved w' = saved w
    end).
  { intros x kw. destruct (save env w1 x out_path kw) as [w2 [[]|e]] eqn:Hs;
      apply save_saved in Hs; destruct Hs as [_ Hs]; rewrite Hs, S1;
      eauto. }
  destruct (str_in (lower (suffix in_path)) [".jpg"; ".jpeg"]).
  - destruct (convert env wm "RGB") as [rgb|e]; cbn [bind]; [|exact S1].
    apply Sv.
  - apply Sv.
Qed.

(** The [for] statement, seen from the generator: the turns of the loop on
    what the generator yields, then the exception that ends the generator,
    if one does. *)
Lemma loop_turns (env : Env) (a : Params) (input_dir output_dir : Path)
    (ps : list Path) (walk_end : option exn) :
  forall r,
    loop env a input_dir output_dir ps walk_end r =
      match turns env a
              (yields (files_of env input_dir output_dir ps walk_end)) r with
      | (r', Ok _) =>
          (r', match raised (files_of env input_dir output_dir ps walk_end)
               with
               | Some e => Raise e
               | None => Ok tt
               end)
      | (r', Raise e) => (r', Raise e)
      end.
Proof.
  induction ps as [|p ps IH]; intros r; cbn [loop files_of].
  - cbn [yields raised turns]. now destruct walk_end.
  - destruct (files_at env input_dir output_dir p) as [[f|]|e].
    + cbn [yields raised turns].
      destruct (loop_step env a r f) as [r' [[]|e]]; [apply IH|reflexivity].
    + apply IH.
    + reflexivity.
Qed.

Lemma print_inv (env : Env) (r r' : Run) (line : string) (res : result unit) :
  print env r line = (r', res) ->
  world r' = world r /\ total r' = total r /\ ok r' = ok r /\
  match res with
  | Ok _ => printed r' = (printed r ++ [line])%list
  | Raise e => printed r' = printed r /\
               print_error env (printed r) line = Some e
  end.
Proof.
  unfold print. destruct (print_error env (printed r) line) as [e|];
    intros [= <- <-]; cbn [world total ok printed]; auto.
Qed.

(** One turn: the file is counted; it counts as a success exactly when a
    file was saved, at its destination; and the only exception that leaves
    the turn is one that [print] raised. *)
Lemma loop_step_inv (env : Env) (a : Params) (r r' : Run) (src dst : Path)
    (res : result unit) :
  loop_step env a r (src, dst) = (r', res) ->
  total r' = total r + 1 /\
  (exists new,
     saved (world r') = (new ++ saved (world r))%list /\
     Z.of_nat (List.length new) = ok r' - ok r /\
     (List.length new <= 1)%nat /\
     forall x, In x new -> saved_path x = dst) /\
  forall e, res = Raise e -> exists h s, print_error env h s = Some e.
Proof.
  unfold loop_step.
  pose proof (process_image_file_saved env (world r) src dst a) as Hs.
  destruct (process_image_file env (world r) src dst a) as [w' [[]|e0]].
  - destruct Hs as (im & kw & Hs).
    assert (New : forall r1 : Run,
      world r1 = w' -> ok r1 = ok r + 1 ->
      exists new,
        saved (world r1) = (new ++ saved (world r))%list /\
        Z.of_nat (List.length new) = ok r1 - ok r /\
        (List.length new <= 1)%nat /\
        forall x, In x new -> saved_path x = dst).
    { intros r1 W O. exists [(dst, im, kw)]. rewrite W, Hs, O.
      cbn [app List.length In].
      split; [reflexivity|]. split; [lia|]. split; [lia|].
      intros x [<-|[]]. reflexivity. }
    destruct (print env _ (line_ok src dst)) as [r1 [[]|e1]] eqn:P1;
      apply print_inv in P1; cbn [world total ok printed] in P1;
      destruct P1 as (W1 & T1 & O1 & P1).
    + intros [= <- <-]. split; [exact T1|].
      split; [apply New; assumption|]. discriminate.
    + intros P2. apply print_inv in P2. destruct P2 as (W2 & T2 & O2 & P2).
      split; [congruence|]. split.
      * apply New; congruence.
      * intros e ->. destruct P2 as [_ P2]. eauto.
  - intros P2. apply print_inv in P2. cbn [world total ok printed] in P2.
    destruct P2 as (W2 & T2 & O2 & P2).
    split; [exact T2|]. split.
    + exists []. rewrite W2, Hs, O2. cbn [app List.length In].
      split; [reflexivity|]. split; [lia|]. split; [lia|]. intros x [].
    + intros e ->. destruct P2 as [_ P2]. eauto.
Qed.

(** The turns of the loop: the successes counted are the files saved, each
    at a destination of its own; and the only exception that ends the
    turns early is one that [print] raised. *)
Lemma turns_inv (env : Env) (a : Params) (fs : list (Path * Path)) :
  forall (r r' : Run) (res : result unit),
    turns env a fs r = (r', res) ->
    (exists new,
       saved (world r') = (new ++ saved (world r))%list /\
       Z.of_nat (List.length new) = ok r' - ok r /\
       (forall x, In x new -> In (saved_path x) (map snd fs)) /\
       (NoDup (map snd fs) -> NoDup (map saved_path new))) /\
    0 <= ok r' - ok r <= total r' - total r /\
    total r' - total r <= Z.of_nat (List.length fs) /\
    (res = Ok tt -> total r' - total r = Z.of_nat (List.length fs)) /\
    forall e, res = Raise e -> exists h s, print_error env h s = Some e.
Proof.
  induction fs as [|[src dst] fs IH]; intros r r' res; cbn [turns].
  - intros [= <- <-]. split.
    + exists []. cbn [app List.length In map].
      split; [reflexivity|]. split; [lia|].
      split; [intros x []|intros _; constructor].
    + cbn [List.length]. split; [lia|]. split; [lia|].
      split; [lia|discriminate].
  - destruct (loop_step env a r (src, dst)) as [r1 [[]|e1]] eqn:St;
      apply loop_step_inv in St;
      destruct St as (T1 & (new1 & S1 & N1 & L1 & D1) & E1).
    + intros H. apply IH in H.
      destruct H as ((new & S & N & D & U) & O & T & F & E).
      split;
        [|cbn [List.length]; split; [lia|]; split; [lia|];
          split; [intros Hr; specialize (F Hr); lia|exact E]].
      exists (new ++ new1)%list. rewrite S, S1, <- app_assoc.
      split; [reflexivity|]. rewrite length_app. split; [lia|]. split.
      * intros x Hx. apply in_app_or in Hx. cbn [map snd In].
        destruct Hx as [Hx|Hx]; [right; auto|left; symmetry; auto].
      * cbn [map snd]. intros Hn. apply NoDup_cons_iff in Hn.
        destruct Hn as [Hd Hn]. rewrite map_app.
        apply NoDup_app; [auto| |].
        -- destruct new1 as [|x [|y new1]]; cbn [map];
             [constructor| |cbn [List.length] in L1; lia].
           constructor; [intros []|constructor].
        -- intros y Hy1 Hy2. apply in_map_iff in Hy1, Hy2.
           destruct Hy1 as (x1 & <- & Hx1). destruct Hy2 as (x2 & E2 & Hx2).
           apply D in Hx1. apply D1 in Hx2. congruence.
    + intros [= <- <-]. split.
      * exists new1. split; [exact S1|]. split; [exact N1|]. split.
        -- intros x Hx. cbn [map snd In]. left. symmetry. auto.
        -- intros _. destruct new1 as [|x [|y new1]]; cbn [map];
             [constructor| |cbn [List.length] in L1; lia].
           constructor; [intros []|constructor].
      * cbn [List.length]. split; [lia|]. split; [lia|].
        split; [discriminate|exact E1].
Qed.



Lemma input_root_spec (env : Env) (args : Args) (input_dir : Path) :
  input_root env args = Ok (input_dir, true) <->
  input_is_directory env args input_dir.
Proof.
  unfold input_root, input_is_directory, exists_, is_dir.
  destruct (fs_resolve env (Path_of (arg_input args))) as [d|e]; cbn [bind].
  - destruct (fs_exists_error env d) as [e|] eqn:Ee; cbn [bind].
    + split; [discriminate|]. intros ([= <-] & H & _). congruence.
    + destruct (fs_exists env d) eqn:Ex.
      * destruct (fs_is_dir_error env d) as [e|] eqn:Ed; cbn [bind].
        -- split; [discriminate|]. intros ([= <-] & _ & _ & H & _).
           congruence.
        -- split.
           ++ intros [= <- H]. auto.
           ++ intros ([= <-] & _ & _ & _ & H). rewrite H. reflexivity.
      * split; [discriminate|]. intros ([= <-] & _ & H & _). congruence.
  - split; [discriminate|]. intros (H & _). discriminate.
Qed.

Lemma output_root_spec (env : Env) (args : Args) (input_dir output_dir : Path) :
  output_root env args input_dir = Ok output_dir <->
  output_is env args input_dir output_dir.
Proof.
  unfold output_root, output_is, truthy.
  destruct (arg_output args) as [s|].
  - destruct (String.eqb s ""); cbn [negb]; [|reflexivity].
    split; [now intros [= <-]|now intros ->].
  - split; [now intros [= <-]|now intros ->].
Qed.

(** [main] once the two roots are set up: the turns of the loop on what
    the scan yields, then the summary. *)
Lemma main_started (env : Env) (w : World) (args : Args)
    (input_dir output_dir : Path) :
  parse_args env = ParsedArgs args ->
  input_is_directory env args input_dir ->
  output_is env args input_dir output_dir ->
  fs_mkdir_error env output_dir = None ->
  main env w =
    match turns env (arg_params args)
            (yields (files env input_dir output_dir (arg_no_recursive args)))
            (run0 {| made_dirs := output_dir :: made_dirs w;
                     saved := saved w |}) with
    | (r, Raise e) => Uncaught r e
    | (r, Ok _) =>
        match raised (files env input_dir output_dir (arg_no_recursive args))
        with
        | Some e => Uncaught r e
        | None =>
            match print env r (line_summary (ok r) (total r) output_dir) with
            | (r', Raise e) => Uncaught r' e
            | (r', Ok _) => Finished r'
            end
        end
    end.
Proof.
  intros Hp Hi Ho Hm. unfold main. rewrite Hp.
  apply input_root_spec in Hi. rewrite Hi.
  apply output_root_spec in Ho. rewrite Ho.
  unfold mkdir. rewrite Hm. cbv zeta. rewrite loop_turns. fold
    (files env input_dir output_dir (arg_no_recursive args)).
  destruct (turns env (arg_params args) _ _) as [r [[]|e]]; [|reflexivity].
  destruct (raised (files env input_dir output_dir (arg_no_recursive args)));
    reflexivity.
Qed.

(** How [main] can go: it ends in the set-up, nothing done, or the two
    roots are set up. *)
Lemma main_cases (env : Env) (w : World) :
  (exists c help,
     main env w
       = Exited {| world := w; printed := help; total := 0; ok := 0 |} c) \/
  (exists e, main env w = Uncaught (run0 w) e) \/
  exists args input_dir output_dir,
    parse_args env = ParsedArgs args /\
    input_is_directory env args input_dir /\
    output_is env args input_dir output_dir /\
    fs_mkdir_error env output_dir = None.
Proof.
  unfold main.
  destruct (parse_args env) as [args|status help] eqn:Hp; [|left; eauto].
  destruct (input_root env args) as [[input_dir [|]]|e] eqn:Hi;
    [|left; unfold run0; eauto|right; left; eauto].
  destruct (output_root env args input_dir) as [output_dir|e] eqn:Ho;
    [|right; left; eauto].
  unfold mkdir.
  destruct (fs_mkdir_error env output_dir) as [e|] eqn:Hm;
    [right; left; eauto|].
  right. right. exists args, input_dir, output_dir.
  apply input_root_spec in Hi. apply output_root_spec in Ho. auto.
Qed.



(* ================================================================= *)
(** ** Beyond the specification: fonts *)




(* ================================================================= *)
(** ** Beyond the specification: one file *)

Lemma restore_mode_mode (env : Env) (img c out : Image) :
  mode c = "RGBA" ->
  restore_mode env img c = Ok out ->
  (mode img = "RGBA" \/ mode img = "RGB" \/ mode img = "L" ->
   mode out = mode img) /\
  (mode out = mode img \/ mode out = "RGB" \/ mode out = "RGBA").
Proof.
  intros Hc. unfold restore_mode.
  destruct (String.eqb_spec (mode img) "RGBA") as [E|N].
  - intros [= <-]. rewrite Hc, E. auto.
  - destruct (str_in (mode img) ["RGB"; "L"]) eqn:S.
    + intros H. apply convert_Ok in H. subst out. cbn [mode]. auto.
    + destruct (convert env c "RGB") as [r|e] eqn:E.
      * intros [= <-]. apply convert_Ok in E. subst r. cbn [mode].
        split; [|auto]. intros [H|H]; [contradiction|].
        apply str_in_RGB_L in H. congruence.
      * intros [= <-]. rewrite Hc. split; [|auto].
        intros [H|H]; [contradiction|].
        apply str_in_RGB_L in H. congruence.
Qed.

(** The image [add_text_watermark] returns: its size is the oriented size
    of the input; its mode is the input's when that is RGBA, RGB or L, and
    otherwise RGB, or RGBA when the conversion to RGB failed. *)
Lemma add_text_watermark_returns (env : Env) (img : Image) (text : string)
    (opacity scale margin_ratio : float) (font_path : option string)
    (angle : float) (out : Image) :
  add_text_watermark env img text opacity scale margin_ratio font_path angle
    = Ok out ->
  size out = oriented_size img /\
  (mode img = "RGBA" \/ mode img = "RGB" \/ mode img = "L" ->
   mode out = mode img) /\
  (mode out = mode img \/ mode out = "RGB" \/ mode out = "RGBA").
Proof.
  intros H. unfold add_text_watermark in H.
  apply bind_Ok_inv in H. destruct H as (L & HL & H).
  apply add_text_watermark_body_inv in HL.
  pose proof (bf_combined _ _ _ _ _ _ _ _ _ HL) as Hc.
  pose proof (bf_img _ _ _ _ _ _ _ _ _ HL) as Hi.
  split.
  - apply restore_mode_size in H. rewrite H, Hc. cbn [size].
    rewrite (bf_w _ _ _ _ _ _ _ _ _ HL), (bf_h _ _ _ _ _ _ _ _ _ HL), Hi,
      <- exif_transpose_size.
    unfold width, height. now destruct (size (exif_transpose img)).
  - apply restore_mode_mode in H; [|rewrite Hc; reflexivity].
    rewrite Hi, exif_transpose_mode in H. exact H.
Qed.

(** For an input that is not a JPEG: once the input is opened and
    watermarked, the call saves the image [add_text_watermark] returned,
    as it is and with no save option, under the output path (and raises
    only if the save does).  That image has the oriented size of the input
    and, for an input in mode RGBA, RGB or L, the input's mode, so a
    picture with an alpha channel keeps it.  Whatever the collaborators
    do, this is the only thing the call ever saves. *)
Theorem process_image_file_other_formats (env : Env) (w : World)
    (in_path out_path : Path) (a : Params) :
  str_in (lower (suffix in_path)) [".jpg"; ".jpeg"] = false ->
  (forall im wm,
     fs_mkdir_error env (parent out_path) = None ->
     open_image env in_path = Ok im ->
     add_text_watermark env im (text a) (opacity a) (scale a)
       (margin_ratio a) (font_path a) (angle a) = Ok wm ->
     let w1 := {| made_dirs := parent out_path :: made_dirs w;
                  saved := saved w |} in
     size wm = oriented_size im /\
     (mode im = "RGBA" \/ mode im = "RGB" \/ mode im = "L" ->
      mode wm = mode im) /\
     process_image_file env w in_path out_path a =
       match save_error env out_path wm [] with
       | Some e => (w1, Raise e)
       | None =>
           ({| made_dirs := made_dirs w1;
               saved := (out_path, wm, []) :: saved w |}, Ok tt)
       end) /\
  match process_image_file env w in_path out_path a with
  | (w', Ok _) =>
      exists im wm,
        open_image env in_path = Ok im /\
        add_text_watermark env im (text a) (opacity a) (scale a)
          (margin_ratio a) (font_path a) (angle a) = Ok wm /\
        saved w' = (out_path, wm, []) :: saved w
  | (w', Raise _) => saved w' = saved w
  end.
Proof.
  intros Hext. split.
  - intros im wm Hmk Ho Hw. cbv zeta.
    destruct (add_text_watermark_returns _ _ _ _ _ _ _ _ _ Hw)
      as (Sz & Md & _).
    split; [exact Sz|]. split; [exact Md|].
    unfold process_image_file, mkdir. rewrite Hmk, Hext, Ho. cbn [bind].
    rewrite Hw. cbn [bind]. unfold save. cbn [made_dirs saved].
    destruct (save_error env out_path wm []); reflexivity.
  - unfold process_image_file.
    destruct (mkdir env w (parent out_path)) as [w1 [[]|e]] eqn:Hmk;
      pose proof (mkdir_saved _ _ _ _ _ Hmk) as S1; [|exact S1].
    rewrite Hext.
    destruct (open_image env in_path) as [im|e] eqn:Ho; cbn [bind];
      [|exact S1].
    destruct (add_text_watermark env im (text a) (opacity a) (scale a)
                (margin_ratio a) (font_path a) (angle a)) as [wm|e] eqn:Hw;
      cbn [bind]; [|exact S1].
    destruct (save env w1 wm out_path []) as [w2 [[]|e]] eqn:Hs;
      apply save_saved in Hs; destruct Hs as [_ Hs]; [|congruence].
    exists im, wm. rewrite Hs, S1. auto.
Qed.

(** On the PNG of the small world, a picture in mode RGBA: the call
    returns, and what it has saved is the watermarked picture, still RGBA
    and of the same size, with no save option. *)
Lemma process_image_file_other_formats_witness :
  exists wm,
    add_text_watermark demo_env
      (demo_image 640 480 "RGBA" None (abs_path ["pics"; "sub"; "b.PNG"]))
      "SAMPLE" 0.3 0.04 0.02 None 45 = Ok wm /\
    size wm = (640, 480) /\ mode wm = "RGBA" /\
    process_image_file demo_env world0 (abs_path ["pics"; "sub"; "b.PNG"])
      (abs_path ["pics"; "watermarked"; "sub"; "b.PNG"]) demo_params
    = ({| made_dirs := [abs_path ["pics"; "watermarked"; "sub"]];
          saved :=
            [(abs_path ["pics"; "watermarked"; "sub"; "b.PNG"], wm, [])] |},
       Ok tt).
Proof.
  destruct (add_text_watermark demo_env
              (demo_image 640 480 "RGBA" None
                 (abs_path ["pics"; "sub"; "b.PNG"]))
              "SAMPLE" 0.3 0.04 0.02 None 45)
    as [wm|e] eqn:E; [|vm_compute in E; discriminate].
  exists wm. split; [reflexivity|].
  destruct (process_image_file_other_formats demo_env world0
              (abs_path ["pics"; "sub"; "b.PNG"])
              (abs_path ["pics"; "watermarked"; "sub"; "b.PNG"]) demo_params
              eq_refl) as [F _].
  destruct (F _ wm eq_refl eq_refl E) as (Sz & Md & ->).
  split; [exact Sz|]. split; [apply Md; left; reflexivity|]. reflexivity.
Defined.

(** The directory of the output is made before the input is opened.  When
    [mkdir] raises, the call raises the same exception and has done nothing
    else; when it does not, the directory stays made whatever happens to
    the image, and a call that raises afterwards leaves it behind with no
    file in it. *)
Theorem process_image_file_makes_directory_first (env : Env) (w : World)
    (in_path out_path : Path) (a : Params) :
  match fs_mkdir_error env (parent out_path) with
  | Some e => process_image_file env w in_path out_path a = (w, Raise e)
  | None =>
      made_dirs (fst (process_image_file env w in_path out_path a))
        = parent out_path :: made_dirs w /\
      forall e, open_image env in_path = Raise e ->
        process_image_file env w in_path out_path a
          = ({| made_dirs := parent out_path :: made_dirs w;
                saved := saved w |}, Raise e)
  end.
Proof.
  unfold process_image_file, mkdir.
  destruct (fs_mkdir_error env (parent out_path)) as [e|]; [reflexivity|].
  split.
  - destruct (open_image env in_path) as [im|e]; cbn [bind]; [|reflexivity].
    destruct (add_text_watermark env im (text a) (opacity a) (scale a)
                (margin_ratio a) (font_path a) (angle a)) as [wm|e];
      cbn [bind]; [|reflexivity].
    destruct (str_in (lower (suffix in_path)) [".jpg"; ".jpeg"]).
    + destruct (convert env wm "RGB") as [rgb|e]; cbn [bind]; [|reflexivity].
      unfold save. now destruct (save_error env out_path rgb _).
    + unfold save. now destruct (save_error env out_path wm _).
  - intros e ->. reflexivity.
Qed.

(* ================================================================= *)
(** ** Beyond the specification: placement *)

(** The watermark is anchored at the bottom right: when the rotated text
    and the margin fit in the picture, the text ends exactly [margin]
    pixels before the right and the bottom edge, and with a margin that is
    not negative it lies within the picture; when they do not fit in one
    direction, it starts at 0 in that direction. *)
Theorem watermark_is_anchored_bottom_right (env : Env) (img : Image)
    (text : string) (opacity scale margin_ratio : float)
    (font_path : option string) (angle : float) (L : Locals) :
  add_text_watermark_body env img text opacity scale margin_ratio font_path
    angle = Ok L ->
  let rw := width (l_rotated L) in
  let rh := height (l_rotated L) in
  (rw + l_margin L <= l_w L -> l_x L + rw + l_margin L = l_w L) /\
  (rh + l_margin L <= l_h L -> l_y L + rh + l_margin L = l_h L) /\
  (l_w L <= rw + l_margin L -> l_x L = 0) /\
  (l_h L <= rh + l_margin L -> l_y L = 0) /\
  (0 <= l_margin L -> rw + l_margin L <= l_w L ->
   rh + l_margin L <= l_h L ->
   0 <= l_x L /\ l_x L + rw <= l_w L /\ 0 <= l_y L /\ l_y L + rh <= l_h L).
Proof.
  intros H rw rh. apply add_text_watermark_body_inv in H.
  pose proof (bf_x _ _ _ _ _ _ _ _ _ H) as Hx.
  pose proof (bf_y _ _ _ _ _ _ _ _ _ H) as Hy.
  fold rw in Hx. fold rh in Hy. lia.
Qed.

Lemma watermark_is_anchored_bottom_right_witness :
  exists L,
    add_text_watermark_body demo_env photo "SAMPLE" 0.3 0.04 0.02 None 45
      = Ok L /\
    l_x L + width (l_rotated L) + l_margin L = l_w L /\
    l_y L + height (l_rotated L) + l_margin L = l_h L.
Proof.
  destruct (add_text_watermark_body demo_env photo "SAMPLE" 0.3 0.04 0.02
              None 45) as [L|e] eqn:E; [|vm_compute in E; discriminate].
  exists L. split; [reflexivity|].
  destruct (watermark_is_anchored_bottom_right demo_env photo "SAMPLE" 0.3
              0.04 0.02 None 45 L E) as (Hx & Hy & _).
  vm_compute in E. injection E as <-.
  split; [apply Hx|apply Hy]; vm_compute; discriminate.
Defined.

(* ================================================================= *)
(** ** Beyond the specification: the scan *)

Lemma files_In (env : Env) (input_dir output_dir : Path) (nr : bool) :
  forall p d, In (p, d) (yields (files env input_dir output_dir nr)) ->
    In p (yields (walk env input_dir nr)) /\
    fs_is_file env p = true /\
    is_subpath env p output_dir = false /\
    mirrors input_dir output_dir p d.
Proof.
  unfold files. intros p d Hin.
  destruct (files_of_spec env input_dir output_dir
              (yields (walk env input_dir nr))
              (raised (walk env input_dir nr))) as (S & _ & _).
  { intros q Hq. apply walk_below in Hq. destruct nr; tauto. }
  apply S in Hin. tauto.
Qed.

Lemma mirrors_source (input_dir output_dir p d : Path) :
  mirrors input_dir output_dir p d ->
  exists rest,
    p = {| anchor := anchor input_dir;
           parts := (parts input_dir ++ rest)%list |} /\
    d = {| anchor := anchor output_dir;
           parts := (parts output_dir ++ rest)%list |}.
Proof.
  intros (rest & Ha & Hp & _ & Hd). exists rest. split; [|exact Hd].
  destruct p as [pa pp]. cbn [anchor parts] in *. now subst.
Qed.

Lemma files_same_destination (env : Env) (input_dir output_dir : Path)
    (nr : bool) (p p' d : Path) :
  In (p, d) (yields (files env input_dir output_dir nr)) ->
  In (p', d) (yields (files env input_dir output_dir nr)) -> p = p'.
Proof.
  intros H1 H2.
  destruct (files_In _ _ _ _ _ _ H1) as (_ & _ & _ & M1).
  destruct (files_In _ _ _ _ _ _ H2) as (_ & _ & _ & M2).
  apply mirrors_source in M1, M2.
  destruct M1 as (r1 & -> & E1). destruct M2 as (r2 & -> & E2).
  rewrite E1 in E2. injection E2 as E2. apply app_inv_head in E2.
  now subst r2.
Qed.

(** The generator yields the paths of the walk it keeps, in the order of
    the walk. *)
Lemma files_of_NoDup (env : Env) (input_dir output_dir : Path)
    (ps : list Path) (walk_end : option exn) :
  NoDup ps ->
  NoDup (map fst (yields (files_of env input_dir output_dir ps walk_end))) /\
  forall p, In p (map fst (yields (files_of env input_dir output_dir ps
                                     walk_end))) -> In p ps.
Proof.
  induction ps as [|q ps IH]; intros Hn; cbn [files_of].
  - cbn [yields map]. split; [constructor|intros p []].
  - apply NoDup_cons_iff in Hn. destruct Hn as [Hq Hn].
    destruct (IH Hn) as (N & I).
    unfold files_at.
    destruct (is_image_file env q) as [img|e]; cbn [bind].
    + destruct (img && negb (is_subpath env q output_dir)).
      * destruct (relative_to q input_dir) as [rel|e]; cbn [bind].
        -- cbn [yields map fst]. split.
           ++ constructor; [intros H; apply Hq, I, H|exact N].
           ++ intros p H. cbn [In] in H |- *.
              destruct H as [<-|H]; [now left|right; auto].
        -- cbn [yields map]. split; [constructor|intros p []].
      * split; [exact N|]. intros p H. right. auto.
    + cbn [yields map]. split; [constructor|intros p []].
Qed.

Lemma NoDup_map_snd (A B : Type) (l : list (A * B)) :
  NoDup (map fst l) ->
  (forall a a' b, In (a, b) l -> In (a', b) l -> a = a') ->
  NoDup (map snd l).
Proof.
  induction l as [|[a b] l IH]; intros Hn Hi; cbn [map fst snd] in *.
  - constructor.
  - apply NoDup_cons_iff in Hn. destruct Hn as [Ha Hn]. constructor.
    + intros Hb. apply in_map_iff in Hb. destruct Hb as ([a' b'] & E & Hb).
      cbn [snd] in E. subst b'.
      assert (a = a') by (eapply Hi; [left; reflexivity|right; exact Hb]).
      subst a'. apply Ha. apply in_map_iff. exists (a, b). auto.
    + apply IH; [exact Hn|]. intros x x' y H1 H2.
      eapply Hi; right; eassumption.
Qed.

Lemma files_NoDup (env : Env) (input_dir output_dir : Path) (nr : bool) :
  NoDup (fs_listing env) ->
  NoDup (map fst (yields (files env input_dir output_dir nr))) /\
  NoDup (map snd (yields (files env input_dir output_dir nr))).
Proof.
  intros Hn.
  assert (N : NoDup (map fst (yields (files env input_dir output_dir nr)))).
  { unfold files. apply files_of_NoDup.
    unfold walk, rglob, glob. destruct nr; cbn [negb yields];
      apply NoDup_filter; exact Hn. }
  split; [exact N|]. apply NoDup_map_snd; [exact N|].
  intros a a' b. apply files_same_destination.
Qed.

(** Where [main] stands when it ends, in a run whose two roots are set
    up: after turns of the loop on what the scan yields. *)
Lemma main_ends (env : Env) (w : World) (args : Args)
    (input_dir output_dir : Path) :
  parse_args env = ParsedArgs args ->
  input_is_directory env args input_dir ->
  output_is env args input_dir output_dir ->
  fs_mkdir_error env output_dir = None ->
  exists r res,
    turns env (arg_params args)
      (yields (files env input_dir output_dir (arg_no_recursive args)))
      (run0 {| made_dirs := output_dir :: made_dirs w; saved := saved w |})
      = (r, res) /\
    world (run_of (main env w)) = world r /\
    total (run_of (main env w)) = total r /\
    ok (run_of (main env w)) = ok r /\
    forall r', main env w = Finished r' ->
      res = Ok tt /\
      printed r' =
        (printed r ++ [line_summary (ok r') (total r') output_dir])%list.
Proof.
  intros Hp Hi Ho Hm.
  rewrite (main_started env w args input_dir output_dir Hp Hi Ho Hm).
  destruct (turns env (arg_params args) _ _) as [r [[]|e]].
  - exists r, (Ok tt). split; [reflexivity|].
    destruct (raised (files env input_dir output_dir
                        (arg_no_recursive args))) as [e|].
    + cbn [run_of]. split; [reflexivity|].
      split; [reflexivity|]. split; [reflexivity|]. discriminate.
    + destruct (print env r _) as [r1 [[]|e]] eqn:P; apply print_inv in P;
        destruct P as (W & T & O & P); cbn [run_of].
      * split; [exact W|]. split; [exact T|]. split; [exact O|].
        intros r' [= <-]. split; [reflexivity|]. rewrite O, T. exact P.
      * split; [exact W|]. split; [exact T|]. split; [exact O|].
        discriminate.
  - exists r, (Raise e). split; [reflexivity|].
    cbn [run_of]. split; [reflexivity|].
      split; [reflexivity|]. split; [reflexivity|]. discriminate.
Qed.

Lemma setup_unique (env : Env) (args args' : Args)
    (input_dir output_dir input_dir' output_dir' : Path) :
  parse_args env = ParsedArgs args ->
  input_is_directory env args input_dir ->
  output_is env args input_dir output_dir ->
  parse_args env = ParsedArgs args' ->
  input_is_directory env args' input_dir' ->
  output_is env args' input_dir' output_dir' ->
  args' = args /\ input_dir' = input_dir /\ output_dir' = output_dir.
Proof.
  intros Hp (Hi & _) Ho Hp' (Hi' & _) Ho'.
  rewrite Hp in Hp'. injection Hp' as <-.
  rewrite Hi in Hi'. injection Hi' as <-.
  split; [reflexivity|]. split; [reflexivity|].
  unfold output_is in Ho, Ho'. destruct (arg_output args) as [s|].
  - destruct (String.eqb s ""); congruence.
  - congruence.
Qed.

(** No output file of a run is written twice.  Two pairs of the scan
    never share a destination; and when the walk lists every path once
    (as [rglob] and [glob] do), the sources the scan yields are pairwise
    distinct, so are the destinations, and so are the paths of the files
    that [main] has saved when it ends, however it ends. *)
Theorem files_destinations_distinct (env : Env) :
  (forall input_dir output_dir no_recursive p p' d,
     In (p, d) (yields (files env input_dir output_dir no_recursive)) ->
     In (p', d) (yields (files env input_dir output_dir no_recursive)) ->
     p = p') /\
  (NoDup (fs_listing env) ->
   (forall input_dir output_dir no_recursive,
      NoDup (map fst (yields (files env input_dir output_dir no_recursive)))
      /\
      NoDup (map snd (yields (files env input_dir output_dir no_recursive))))
   /\
   forall w, exists new,
     saved (world (run_of (main env w))) = (new ++ saved w)%list /\
     NoDup (map saved_path new)).
Proof.
  split; [intros; eapply files_same_destination; eassumption|].
  intros Hn. split; [intros; apply files_NoDup; exact Hn|].
  intros w.
  destruct (main_cases env w)
    as [(c & help & ->)
       |[(e & ->)|(args & input_dir & output_dir & Hp & Hi & Ho & Hm)]].
  - exists []. split; [reflexivity|constructor].
  - exists []. split; [reflexivity|constructor].
  - destruct (main_ends env w args input_dir output_dir Hp Hi Ho Hm)
      as (r & res & T & W & _).
    apply turns_inv in T. destruct T as ((new & S & _ & _ & U) & _).
    exists new. rewrite W, S. split; [reflexivity|].
    apply U. apply files_NoDup. exact Hn.
Qed.

(** On the small world, whose walk lists every path once: the three
    destinations are distinct, and the two files that the run has saved
    are two different files. *)
Lemma files_destinations_distinct_witness :
  NoDup (fs_listing demo_env) /\
  NoDup (map snd (yields (files demo_env (abs_path ["pics"])
                            (abs_path ["pics"; "watermarked"]) false))) /\
  exists new,
    saved (world (run_of (main demo_env world0))) = (new ++ [])%list /\
    NoDup (map saved_path new) /\
    map saved_path new =
      [abs_path ["pics"; "watermarked"; "sub"; "b.PNG"];
       abs_path ["pics"; "watermarked"; "a.jpg"]].
Proof.
  assert (N : NoDup (fs_listing demo_env)).
  { repeat (constructor;
            [cbn [In fs_listing demo_env demo_dirs demo_files tl app];
             intros H; repeat destruct H as [H|H]; try discriminate H;
             exact H|]).
    constructor. }
  split; [exact N|].
  destruct (files_destinations_distinct demo_env) as (_ & D).
  destruct (D N) as (F & M).
  split; [apply F|].
  destruct (M world0) as (new & S & U).
  exists new. split; [exact S|]. split; [exact U|].
  cbn [saved world0] in S. rewrite app_nil_r in S. rewrite <- S.
  vm_compute. reflexivity.
Defined.

(** Where every path is its own resolution, no source of a scan lies under
    the output root and every destination does: a run reads nothing that it
    writes, and what an earlier run wrote under the output root is not
    watermarked again. *)
Theorem files_sources_outside_output (env : Env) (input_dir output_dir : Path)
    (no_recursive : bool) (fs : list (Path * Path)) (p d : Path) :
  canonical env ->
  yields (files env input_dir output_dir no_recursive) = fs ->
  In (p, d) fs ->
  is_prefix_path output_dir p = false /\
  is_prefix_path output_dir d = true /\
  forall p' d', In (p', d') fs -> d <> p'.
Proof.
  intros C H Hin. subst fs.
  assert (Src : forall q e,
            In (q, e) (yields (files env input_dir output_dir no_recursive)) ->
            is_prefix_path output_dir q = false).
  { intros q e Hq. destruct (files_In _ _ _ _ _ _ Hq) as (_ & _ & S & _).
    unfold is_subpath in S. now rewrite !C in S. }
  assert (Dst : is_prefix_path output_dir d = true).
  { destruct (files_In _ _ _ _ _ _ Hin) as (_ & _ & _ & M).
    apply mirrors_source in M. destruct M as (rest & _ & ->).
    unfold is_prefix_path.
    assert (R : relative_to
                  {| anchor := anchor output_dir;
                     parts := (parts output_dir ++ rest)%list |} output_dir
                = Ok {| anchor := ""; parts := rest |})
      by (apply relative_to_Ok; auto).
    now rewrite R. }
  split; [exact (Src _ _ Hin)|]. split; [exact Dst|].
  intros p' d' Hin' <-. rewrite (Src _ _ Hin') in Dst. discriminate.
Qed.

Lemma files_sources_outside_output_witness :
  exists fs,
    canonical demo_env /\
    yields (files demo_env (abs_path ["pics"])
              (abs_path ["pics"; "watermarked"]) false) = fs /\
    In (abs_path ["pics"; "a.jpg"],
        abs_path ["pics"; "watermarked"; "a.jpg"]) fs /\
    is_prefix_path (abs_path ["pics"; "watermarked"])
      (abs_path ["pics"; "a.jpg"]) = false /\
    is_prefix_path (abs_path ["pics"; "watermarked"])
      (abs_path ["pics"; "watermarked"; "a.jpg"]) = true.
Proof.
  exists (yields (files demo_env (abs_path ["pics"])
                    (abs_path ["pics"; "watermarked"]) false)).
  assert (C : canonical demo_env) by (intros q; reflexivity).
  assert (I : In (abs_path ["pics"; "a.jpg"],
                  abs_path ["pics"; "watermarked"; "a.jpg"])
                (yields (files demo_env (abs_path ["pics"])
                           (abs_path ["pics"; "watermarked"]) false))).
  { vm_compute. left. reflexivity. }
  destruct (files_sources_outside_output demo_env (abs_path ["pics"])
              (abs_path ["pics"; "watermarked"]) false _ _ _ C eq_refl I)
    as (H1 & H2 & _).
  repeat split; assumption.
Defined.

(* ================================================================= *)
(** ** Beyond the specification: a whole run *)

(** However [main] ends, the successes it has counted are the files it
    has saved, no more than the files it has attempted; every one sits at a
    destination of the scan of the two roots of the command line, and no
    more files were attempted than the scan yields.  When [main] ends
    normally every file of the scan was attempted and the last line printed
    is the summary, with these two counts and the output root. *)
Theorem main_saves_one_file_per_success (env : Env) (w : World) :
  exists new,
    saved (world (run_of (main env w))) = (new ++ saved w)%list /\
    Z.of_nat (List.length new) = ok (run_of (main env w)) /\
    0 <= ok (run_of (main env w)) <= total (run_of (main env w)) /\
    (forall args input_dir output_dir,
       parse_args env = ParsedArgs args ->
       input_is_directory env args input_dir ->
       output_is env args input_dir output_dir ->
       total (run_of (main env w))
         <= Z.of_nat (List.length
                        (yields (files env input_dir output_dir
                                   (arg_no_recursive args)))) /\
       forall x, In x new ->
         exists src,
           In (src, saved_path x)
              (yields (files env input_dir output_dir
                         (arg_no_recursive args)))) /\
    (forall r, main env w = Finished r ->
       exists args input_dir output_dir before,
         parse_args env = ParsedArgs args /\
         input_is_directory env args input_dir /\
         output_is env args input_dir output_dir /\
         total r
           = Z.of_nat (List.length
                         (yields (files env input_dir output_dir
                                    (arg_no_recursive args)))) /\
         printed r =
           (before ++ [line_summary (ok r) (total r) output_dir])%list).
Proof.
  destruct (main_cases env w)
    as [(c & help & E)
       |[(e & E)|(args & input_dir & output_dir & Hp & Hi & Ho & Hm)]].
  - rewrite E. exists []. cbn [run_of run0 world ok total app List.length].
    split; [reflexivity|]. split; [reflexivity|]. split; [lia|].
    split; [|discriminate]. intros. split; [lia|]. intros x [].
  - rewrite E. exists []. cbn [run_of run0 world ok total app List.length].
    split; [reflexivity|]. split; [reflexivity|]. split; [lia|].
    split; [|discriminate]. intros. split; [lia|]. intros x [].
  - destruct (main_ends env w args input_dir output_dir Hp Hi Ho Hm)
      as (r & res & T & W & Tt & Oo & F).
    apply turns_inv in T.
    destruct T as ((new & S & N & D & _) & O & L & Fin & _).
    cbn [run0 world ok total] in S, N, O, L, Fin.
    exists new. rewrite W, Tt, Oo.
    split; [exact S|]. split; [lia|]. split; [lia|]. split.
    + intros args' input_dir' output_dir' Hp' Hi' Ho'.
      destruct (setup_unique env args args' input_dir output_dir
                  input_dir' output_dir' Hp Hi Ho Hp' Hi' Ho')
        as (-> & -> & ->).
      split; [lia|]. intros x Hx. apply D in Hx.
      apply in_map_iff in Hx. destruct Hx as ([src d] & E & Hx).
      cbn [snd] in E. subst d. exists src. exact Hx.
    + intros r' Hr. destruct (F r' Hr) as (-> & P).
      exists args, input_dir, output_dir, (printed r).
      rewrite Hr in Tt. cbn [run_of] in Tt.
      split; [exact Hp|]. split; [exact Hi|]. split; [exact Ho|].
      split; [|exact P]. rewrite Tt. specialize (Fin eq_refl). lia.
Qed.

(** On the small world: the run ends normally, with two successes of
    three files, two files saved, and the summary as its last line. *)
Lemma main_saves_one_file_per_success_witness :
  exists r new before,
    main demo_env world0 = Finished r /\
    saved (world r) = (new ++ saved world0)%list /\
    Z.of_nat (List.length new) = ok r /\ ok r = 2 /\ total r = 3 /\
    printed r =
      (before ++ [line_summary 2 3 (abs_path ["pics"; "watermarked"])])%list.
Proof.
  destruct (main_saves_one_file_per_success demo_env world0)
    as (new & S & N & _ & _ & F).
  destruct (main demo_env world0) as [r c|r e|r] eqn:E;
    [vm_compute in E; discriminate|vm_compute in E; discriminate|].
  destruct (F r eq_refl) as (args & input_dir & output_dir & before & Hp
                             & (Hi & _) & Ho & _ & P).
  injection Hp as <-. injection Hi as <-. cbv in Ho. subst output_dir.
  cbn [run_of] in S, N.
  assert (O : ok r = 2 /\ total r = 3).
  { vm_compute in E. injection E as <-. split; reflexivity. }
  destruct O as (O & T). rewrite O, T in P.
  exists r, new, before. repeat split; assumption.
Defined.

(* ================================================================= *)
(** ** Beyond the specification: parameters out of range *)

Lemma SFmul_finite_r (x y : spec_float) :
  match SF64mul x y with
  | S754_zero _ | S754_finite _ _ _ =>
      match y with
      | S754_zero _ | S754_finite _ _ _ => True
      | _ => False
      end
  | _ => True
  end.
Proof.
  unfold SF64mul, SFmul.
  destruct x as [sx|sx| |sx mx ex], y as [sy|sy| |sy my ey]; try exact I.
  destruct (binary_round_aux prec emax (xorb sx sy) (Z.pos (mx * my))
              (ex + ey) loc_Exact); exact I.
Qed.

(** [int(z * x)] is defined only for a number [x]. *)
Lemma int_times_finite (z : Z) (x : float) (t : Z) :
  int_times z x = Ok t -> finite x = true.
Proof.
  unfold int_times, PyFloat.int_mul. intros H.
  apply bind_Ok_inv in H. destruct H as (p & Hp & H).
  apply bind_Ok_inv in Hp. destruct Hp as (f & _ & [= <-]).
  unfold PyFloat.to_int in H. rewrite mul_spec in H.
  pose proof (SFmul_finite_r (Prim2SF f) (Prim2SF x)) as M.
  unfold finite.
  destruct (SF64mul (Prim2SF f) (Prim2SF x)); try discriminate;
    destruct (Prim2SF x); try reflexivity; destruct M.
Qed.

(** [add_text_watermark] returns an image only when [scale],
    [margin_ratio] and [opacity] are numbers: with a NaN or an infinity for
    any of them the call raises (from [int]), whatever the image. *)
Theorem add_text_watermark_needs_numbers (env : Env) (img : Image)
    (text : string) (opacity scale margin_ratio : float)
    (font_path : option string) (angle : float) (out : Image) :
  add_text_watermark env img text opacity scale margin_ratio font_path angle
    = Ok out ->
  finite scale = true /\ finite margin_ratio = true /\ finite opacity = true.
Proof.
  intros H. unfold add_text_watermark in H.
  apply bind_Ok_inv in H. destruct H as (L & HL & _).
  apply add_text_watermark_body_inv in HL.
  destruct (bf_size _ _ _ _ _ _ _ _ _ HL) as (si & Hs & _).
  destruct (bf_alpha _ _ _ _ _ _ _ _ _ HL) as (ai & Ha & _).
  pose proof (bf_margin _ _ _ _ _ _ _ _ _ HL) as Hm.
  apply int_times_finite in Hs, Ha, Hm. auto.
Qed.

Lemma add_text_watermark_needs_numbers_witness :
  exists out,
    add_text_watermark demo_env photo "SAMPLE" 0.3 0.04 0.02 None 45
      = Ok out /\
    finite 0.04 = true /\ finite 0.02 = true /\ finite 0.3 = true.
Proof.
  destruct (add_text_watermark demo_env photo "SAMPLE" 0.3 0.04 0.02 None 45)
    as [out|e] eqn:E; [|vm_compute in E; discriminate].
  exists out. split; [reflexivity|].
  exact (add_text_watermark_needs_numbers demo_env photo "SAMPLE" 0.3 0.04
           0.02 None 45 out E).
Defined.

(** Rounding keeps the sign. *)
Lemma binary_round_aux_sign (sx : bool) (mx ex : Z) (lx : location) :
  match binary_round_aux prec emax sx mx ex lx with
  | S754_finite s _ _ => s = sx
  | _ => True
  end.
Proof.
  unfold binary_round_aux.
  destruct (shr_fexp prec emax mx ex lx) as [r1 e1].
  destruct (shr_fexp prec emax _ e1 loc_Exact) as [r2 e2].
  destruct (shr_m r2); try exact I.
  destruct (e2 <=? emax - prec); [reflexivity|exact I].
Qed.

Lemma trunc_finite_negative (m : positive) (e : Z) :
  PyFloat.trunc_finite true m e <= 0.
Proof.
  unfold PyFloat.trunc_finite.
  destruct (0 <=? e) eqn:He.
  - apply Z.leb_le in He.
    assert (0 <= 2 ^ e) by (apply Z.pow_nonneg; lia). nia.
  - apply Z.leb_gt in He.
    assert (0 < 2 ^ (- e)) by (apply Z.pow_pos_nonneg; lia).
    assert (0 <= Z.pos m / 2 ^ (- e)) by (apply Z.div_pos; lia). lia.
Qed.

(** [int(255 * x)] is not positive when [x] is not. *)
Lemma int_times_255_nonpositive (x : float) (t : Z) :
  (x <=? 0)%float = true -> int_times 255 x = Ok t -> t <= 0.
Proof.
  intros Hx H. unfold int_times, PyFloat.int_mul in H.
  rewrite of_int_255 in H. cbn [bind] in H.
  unfold PyFloat.to_int in H. rewrite mul_spec, Prim2SF_255 in H.
  rewrite leb_spec in Hx.
  change (Prim2SF 0) with (S754_zero false) in Hx.
  unfold SF64mul, SFmul in H.
  destruct (Prim2SF x) as [s|s| |s m e].
  - injection H as <-. lia.
  - discriminate.
  - discriminate.
  - destruct s; [|discriminate]. cbn [xorb] in H.
    pose proof (binary_round_aux_sign true (Z.pos (8972014882652160 * m))
                  (-45 + e) loc_Exact) as S.
    destruct (binary_round_aux prec emax true
                (Z.pos (8972014882652160 * m)) (-45 + e) loc_Exact)
      as [s'|s'| |s' m' e']; try discriminate.
    + injection H as <-. lia.
    + injection H as <-. subst s'. apply trunc_finite_negative.
Qed.

Lemma Zpos_ge_pow_digits (p : positive) :
  2 ^ (Z.pos (digits2_pos p) - 1) <= Z.pos p.
Proof.
  rewrite digits2_pos_size.
  pose proof (Pos.size_le p) as H.
  apply Pos2Z.pos_le_pos in H. rewrite Pos2Z.inj_pow in H.
  replace (Z.pos (Pos.size p)) with (1 + (Z.pos (Pos.size p) - 1)) in H by lia.
  rewrite pow2_split in H by lia. change (2 ^ 1) with 2 in H. lia.
Qed.

(** [shr_fexp] leaves a mantissa alone only when its exponent is already
    the one [fexp] asks for, or above. *)
Lemma shr_fexp_cases (m e : Z) (l : location) :
  0 <= m ->
  let '(r, e') := shr_fexp prec emax m e l in
  (fexp prec emax (Zdigits2 m + e) <= e /\ e' = e /\ shr_m r = m) \/
  (e < e' /\ e' = fexp prec emax (Zdigits2 m + e) /\
   shr_m r = m / 2 ^ (e' - e)).
Proof.
  intros Hm. unfold shr_fexp, shr.
  destruct (fexp prec emax (Zdigits2 m + e) - e) as [|p|p] eqn:K.
  - rewrite shr_m_of_loc. left. repeat split. lia.
  - destruct (shr_m_iter p (shr_record_of_loc m l)) as [E P].
    { rewrite shr_m_of_loc; exact Hm. }
    rewrite shr_m_of_loc in E. right.
    split; [lia|]. split; [lia|].
    rewrite E. f_equal. f_equal. lia.
  - rewrite shr_m_of_loc. left. repeat split. lia.
Qed.

(** Rounding a value that is at least 255 gives a float that truncates to
    at least 255, unless it overflows. *)
Lemma binary_round_aux_above (M : positive) (E : Z) :
  -97 <= E -> 255 * 2 ^ 97 <= Z.pos M -> Z.pos M < 2 ^ 106 ->
  match binary_round_aux prec emax false (Z.pos M) E loc_Exact with
  | S754_finite s m e => 255 <= PyFloat.trunc_finite s m e
  | S754_infinity _ => True
  | _ => False
  end.
Proof.
  intros HE Hlo Hhi. unfold binary_round_aux.
  set (d := Z.pos (digits2_pos M)).
  pose proof (Zpos_ge_pow_digits M) as D1. fold d in D1.
  pose proof (Zpos_lt_pow_digits M) as D2. fold d in D2.
  assert (Hd : 105 <= d <= 106).
  { split.
    - assert (2 ^ 104 < 2 ^ d); [|apply Z.pow_lt_mono_r_iff in H; lia].
      eapply Z.le_lt_trans; [|exact D2].
      eapply Z.le_trans; [|exact Hlo].
      change (2 ^ 104) with (128 * 2 ^ 97).
      assert (0 < 2 ^ 97) by (apply Z.pow_pos_nonneg; lia). lia.
    - assert (2 ^ (d - 1) < 2 ^ 106) by lia.
      apply Z.pow_lt_mono_r_iff in H; lia. }
  pose proof (shr_fexp_cases (Z.pos M) E loc_Exact ltac:(lia)) as S1.
  destruct (shr_fexp prec emax (Z.pos M) E loc_Exact) as [r1 e1].
  cbn [Zdigits2] in S1. fold d in S1.
  assert (F1 : fexp prec emax (d + E) = d + E - 53)
    by (unfold fexp, SpecFloat.emin, prec, emax; lia).
  rewrite F1 in S1.
  destruct S1 as [(N & _)|(_ & He1 & Hm1)]; [lia|].
  assert (K : e1 - E = d - 53) by lia.
  assert (Pk : 0 < 2 ^ (d - 53)) by (apply Z.pow_pos_nonneg; lia).
  assert (B1 : 2 ^ 52 <= shr_m r1 < 2 ^ 53).
  { rewrite Hm1, K. split.
    - apply Z.div_le_lower_bound; [lia|].
      rewrite Z.mul_comm, <- pow2_split by lia.
      replace (52 + (d - 53)) with (d - 1) by lia. exact D1.
    - apply Z.div_lt_upper_bound; [lia|].
      rewrite <- pow2_split by lia.
      replace (d - 53 + 53) with d by lia. exact D2. }
  assert (L1 : e1 < 0 -> 255 * 2 ^ (- e1) <= shr_m r1).
  { intros N. rewrite Hm1. apply Z.div_le_lower_bound; [lia|].
    rewrite Z.mul_comm, <- Z.mul_assoc, <- pow2_split by lia.
    replace (- e1 + (e1 - E)) with (- E) by lia.
    eapply Z.le_trans; [|exact Hlo].
    apply Z.mul_le_mono_nonneg_l; [lia|].
    apply Z.pow_le_mono_r; lia. }
  set (m2 := round_nearest_even (shr_m r1) (loc_of_shr_record r1)).
  pose proof (round_nearest_even_le (shr_m r1) (loc_of_shr_record r1)) as R.
  fold m2 in R.
  pose proof (shr_fexp_step m2 e1 loc_Exact ltac:(lia)) as S2.
  destruct (shr_fexp prec emax m2 e1 loc_Exact) as [r3 e3].
  destruct S2 as [P3 S2].
  assert (G : e1 <= e3 /\ 2 ^ 51 <= shr_m r3 /\
              (e3 < 0 -> 255 * 2 ^ (- e3) <= shr_m r3)).
  { destruct S2 as [[-> ->]|(Hlt & He3 & Hm3)].
    - split; [lia|]. split; [|intros N; specialize (L1 N); lia].
      assert (2 ^ 51 <= 2 ^ 52) by (apply Z.pow_le_mono_r; lia). lia.
    - assert (D3 : Zdigits2 m2 <= 54).
      { apply Zdigits2_le; lia. }
      assert (K2 : e3 - e1 = 1).
      { unfold fexp, SpecFloat.emin, prec, emax in He3. lia. }
      rewrite K2 in Hm3. change (2 ^ 1) with 2 in Hm3.
      split; [lia|]. split.
      + rewrite Hm3. apply Z.div_le_lower_bound; [lia|].
        change (2 * 2 ^ 51) with (2 ^ 52). lia.
      + intros N. rewrite Hm3. apply Z.div_le_lower_bound; [lia|].
        assert (N1 : e1 < 0) by lia. specialize (L1 N1).
        replace (- e1) with (1 + - e3) in L1 by lia.
        rewrite pow2_split in L1 by lia. change (2 ^ 1) with 2 in L1. lia. }
  destruct G as (Ge & Gm & Gl).
  assert (P51 : 0 < 2 ^ 51) by (apply Z.pow_pos_nonneg; lia).
  destruct (shr_m r3) as [|m3|m3] eqn:Em3; [lia| |lia].
  destruct (e3 <=? emax - prec); [|exact I].
  unfold PyFloat.trunc_finite.
  destruct (0 <=? e3) eqn:S3.
  - apply Z.leb_le in S3.
    assert (1 <= 2 ^ e3).
    { change 1 with (2 ^ 0). apply Z.pow_le_mono_r; lia. }
    assert (255 <= 2 ^ 51) by (change 255 with (2 ^ 8 - 1);
      assert (2 ^ 8 <= 2 ^ 51) by (apply Z.pow_le_mono_r; lia); lia).
    nia.
  - apply Z.leb_gt in S3.
    apply Z.div_le_lower_bound; [apply Z.pow_pos_nonneg; lia|].
    rewrite Z.mul_comm. apply Gl. exact S3.
Qed.

(** [int(255 * x)] is at least 255 when [x] is at least 1. *)
Lemma int_times_255_at_least_one (x : float) (t : Z) :
  (1 <=? x)%float = true -> int_times 255 x = Ok t -> 255 <= t.
Proof.
  intros Hx H. unfold int_times, PyFloat.int_mul in H.
  rewrite of_int_255 in H. cbn [bind] in H.
  unfold PyFloat.to_int in H. rewrite mul_spec, Prim2SF_255 in H.
  rewrite leb_spec in Hx.
  change (Prim2SF 1) with (S754_finite false 4503599627370496 (-52)) in Hx.
  pose proof (Prim2SF_valid x) as V.
  unfold SF64mul, SFmul in H.
  destruct (Prim2SF x) as [s|s| |s m e]; try discriminate.
  destruct s; [discriminate|]. cbn [xorb] in H. cbn [valid_binary] in V.
  pose proof (bounded_mantissa m e V) as Hhi.
  assert (Hme : -52 <= e /\ 2 ^ 52 <= Z.pos m).
  { unfold SFleb, SFcompare in Hx.
    destruct (Z.compare_spec (-52) e) as [Heq|Hlt|Hgt].
    - subst e. split; [lia|]. change (2 ^ 52) with 4503599627370496.
      destruct (Pos.compare_cont Eq 4503599627370496 m) eqn:C;
        try discriminate.
      + apply Pos.compare_eq in C. subst m. lia.
      + assert (Hc : 4503599627370496 < Z.pos m)
          by (apply Pos2Z.pos_lt_pos; exact C).
        lia.
    - split; [lia|].
      unfold bounded, canonical_mantissa in V.
      apply andb_true_iff in V. destruct V as [V _]. apply Z.eqb_eq in V.
      unfold fexp, SpecFloat.emin, prec, emax in V.
      pose proof (Zpos_ge_pow_digits m) as D.
      replace (Z.pos (digits2_pos m) - 1) with 52 in D by lia. exact D.
    - discriminate. }
  destruct Hme as [He Hlo].
  assert (P45 : 2 ^ 45 = 35184372088832) by reflexivity.
  assert (B : 255 * 2 ^ 97 <= Z.pos (8972014882652160 * m) < 2 ^ 106).
  { rewrite Pos2Z.inj_mul.
    change (Z.pos 8972014882652160) with (255 * 2 ^ 45).
    change (2 ^ 97) with (2 ^ 45 * 2 ^ 52).
    change (2 ^ 106) with (256 * 2 ^ 45 * 2 ^ 53).
    rewrite P45. lia. }
  pose proof (binary_round_aux_above (8972014882652160 * m) (-45 + e)
                ltac:(lia) (proj1 B) (proj2 B)) as A.
  destruct (binary_round_aux prec emax false
              (Z.pos (8972014882652160 * m)) (-45 + e) loc_Exact)
    as [s'|s'| |s' m' e']; try discriminate; try contradiction.
  injection H as <-. exact A.
Qed.

(** [int(255 * x)] is defined exactly when the product is a number. *)
Lemma int_times_255_defined (x : float) :
  match int_times 255 x with
  | Ok _ => finite (255 * x)%float = true
  | Raise _ => finite (255 * x)%float = false
  end.
Proof.
  unfold int_times, PyFloat.int_mul. rewrite of_int_255. cbn [bind].
  unfold PyFloat.to_int, finite.
  destruct (Prim2SF (255 * x)); reflexivity.
Qed.

(** An opacity outside [0, 1].  Line 54 raises exactly when the product
    [255 * opacity] is not a number: for a NaN, an infinity, or an opacity
    so large that the product overflows; the call then raises.  Otherwise
    the opacity is clamped: at 0 or below the text is drawn with alpha 0
    (it leaves no trace), at 1 or above with alpha 255 and a shadow of
    alpha 127. *)
Theorem opacity_is_clamped (opacity : float) :
  ((exists t, int_times 255 opacity = Ok t) <->
   finite (255 * opacity)%float = true) /\
  (forall env img text scale margin_ratio font_path angle,
     finite (255 * opacity)%float = false ->
     exists e,
       add_text_watermark env img text opacity scale margin_ratio font_path
         angle = Raise e) /\
  (forall env img text scale margin_ratio font_path angle L,
     add_text_watermark_body env img text opacity scale margin_ratio
       font_path angle = Ok L ->
     finite (255 * opacity)%float = true /\
     ((opacity <=? 0)%float = true ->
      l_alpha L = 0 /\ l_shadow_alpha L = 0) /\
     ((1 <=? opacity)%float = true ->
      l_alpha L = 255 /\ l_shadow_alpha L = 127)).
Proof.
  pose proof (int_times_255_defined opacity) as D.
  split; [|split].
  - destruct (int_times 255 opacity) as [t|e].
    + split; [intros _; exact D|eauto].
    + split; [intros (t & H); discriminate|congruence].
  - intros env img text scale margin_ratio font_path angle F.
    destruct (add_text_watermark env img text opacity scale margin_ratio
                font_path angle) as [out|e] eqn:H; [|eauto].
    unfold add_text_watermark in H.
    apply bind_Ok_inv in H. destruct H as (L & HL & _).
    apply add_text_watermark_body_inv in HL.
    destruct (bf_alpha _ _ _ _ _ _ _ _ _ HL) as (ai & Hai & _).
    rewrite Hai in D. congruence.
  - intros env img text scale margin_ratio font_path angle L H.
    apply add_text_watermark_body_inv in H.
    destruct (bf_alpha _ _ _ _ _ _ _ _ _ H) as (ai & Hai & Ha).
    destruct (bf_shadow_alpha _ _ _ _ _ _ _ _ _ H) as (sai & Hsai & Hsa).
    assert (Ra : 0 <= l_alpha L <= 255) by lia.
    rewrite (half_of_alpha _ Ra) in Hsai. injection Hsai as <-.
    rewrite Hai in D. split; [exact D|].
    split; intros Hx.
    + pose proof (int_times_255_nonpositive _ _ Hx Hai) as N.
      assert (E : l_alpha L = 0) by lia.
      rewrite E in Hsa. split; [exact E|exact Hsa].
    + pose proof (int_times_255_at_least_one _ _ Hx Hai) as N.
      assert (E : l_alpha L = 255) by lia.
      rewrite E in Hsa. split; [exact E|exact Hsa].
Qed.

(** At opacity 2.5 the text is opaque; at opacity 1e308 the product is an
    infinity and the call raises. *)
Lemma opacity_is_clamped_witness :
  (exists L,
     add_text_watermark_body demo_env photo "SAMPLE" 2.5 0.04 0.02 None 45
       = Ok L /\
     (1 <=? 2.5)%float = true /\
     l_alpha L = 255 /\ l_shadow_alpha L = 127) /\
  finite (255 * 1e308)%float = false /\
  int_times 255 1e308
    = Raise (OverflowError "cannot convert float infinity to integer") /\
  exists e,
    add_text_watermark demo_env photo "SAMPLE" 1e308 0.04 0.02 None 45
      = Raise e.
Proof.
  split.
  { destruct (add_text_watermark_body demo_env photo "SAMPLE" 2.5 0.04 0.02
                None 45) as [L|e] eqn:E; [|vm_compute in E; discriminate].
    exists L. split; [reflexivity|].
    assert (H1 : (1 <=? 2.5)%float = true) by reflexivity.
    split; [exact H1|].
    destruct (opacity_is_clamped 2.5) as (_ & _ & C).
    destruct (C demo_env photo "SAMPLE" 0.04%float 0.02%float None 45%float
                L E) as (_ & _ & C1).
    exact (C1 H1). }
  assert (F : finite (255 * 1e308)%float = false) by reflexivity.
  split; [exact F|]. split; [vm_compute; reflexivity|].
  destruct (opacity_is_clamped 1e308) as (_ & R & _).
  exact (R demo_env photo "SAMPLE" 0.04%float 0.02%float None 45%float F).
Defined.

(* ================================================================= *)
(** ** Beyond the specification: leaving through [SystemExit] *)

(** [main] leaves through [SystemExit] in two cases only, and in both
    before anything is written, attempted or printed by [main] itself:
    argparse exits, with its status (after [-h], the help printed, or for
    a command line it rejects); or the resolved input path does not exist
    or is not a directory, and the exit carries the message that names
    that path. *)
Theorem main_exits_on_missing_input (env : Env) (w : World) (r : Run)
    (code : exit_code) :
  main env w = Exited r code <->
  world r = w /\ total r = 0 /\ ok r = 0 /\
  ((exists status help,
      parse_args env = ParseExit status help /\
      printed r = help /\ code = Status status)
   \/
   exists args input_dir,
     printed r = [] /\
     parse_args env = ParsedArgs args /\
     fs_resolve env (Path_of (arg_input args)) = Ok input_dir /\
     fs_exists_error env input_dir = None /\
     (fs_exists env input_dir = false \/
      fs_exists env input_dir = true /\
      fs_is_dir_error env input_dir = None /\
      fs_is_dir env input_dir = false) /\
     code = Message ("输入目录不存在: " ++ Path_str input_dir)).
Proof.
  split.
  - unfold main.
    destruct (parse_args env) as [args|status help] eqn:Hp.
    2:{ intros [= <- <-]. cbn [world total ok printed].
        repeat (split; [reflexivity|]). left. eauto. }
    unfold input_root, exists_, is_dir.
    destruct (fs_resolve env (Path_of (arg_input args))) as [d|e] eqn:Hr;
      cbn [bind]; [|discriminate].
    destruct (fs_exists_error env d) as [e|] eqn:Ee; cbn [bind];
      [discriminate|].
    destruct (fs_exists env d) eqn:Ex.
    + destruct (fs_is_dir_error env d) as [e|] eqn:Ed; cbn [bind];
        [discriminate|].
      destruct (fs_is_dir env d) eqn:Di.
      * destruct (output_root env args d) as [o|e]; [|discriminate].
        destruct (mkdir env w o) as [w1 [[]|e]]; [|discriminate].
        cbv zeta.
        destruct (loop env (arg_params args) d o _ _ _) as [r1 [[]|e]];
          [|discriminate].
        destruct (print env r1 _) as [r2 [[]|e]]; discriminate.
      * intros [= <- <-]. cbn [run0 world total ok printed].
        repeat (split; [reflexivity|]). right.
        exists args, d. auto 10.
    + intros [= <- <-]. cbn [run0 world total ok printed].
      repeat (split; [reflexivity|]). right.
      exists args, d. auto 10.
  - destruct r as [rw rp rt ro]. cbn [world total ok printed].
    intros (-> & -> & -> & [(s & help & Hp & -> & ->)
                           |(args & d & -> & Hp & Hr & He & H & ->)]);
      unfold main; rewrite Hp; [reflexivity|].
    unfold input_root, exists_, is_dir.
    rewrite Hr. cbn [bind]. rewrite He. cbn [bind].
    destruct H as [H|(H1 & H2 & H3)].
    + rewrite H. reflexivity.
    + rewrite H1, H2. cbn [bind]. rewrite H3. reflexivity.
Qed.

(** With [-i /nowhere] on the small world [main] exits with the message,
    and with a command line argparse rejects, with status 2; nothing is
    written in either case. *)
Lemma main_exits_on_missing_input_witness :
  main (demo_env_with (ParsedArgs nowhere_args) (fun _ _ => None)
          (fun _ => None)) world0
    = Exited (run0 world0) (Message "输入目录不存在: /nowhere") /\
  main (demo_env_with (ParseExit 2 []) (fun _ _ => None) (fun _ => None))
    world0
    = Exited (run0 world0) (Status 2).
Proof.
  split.
  - apply (proj2 (main_exits_on_missing_input _ _ _ _)).
    repeat (split; [reflexivity|]). right.
    exists nowhere_args, (abs_path ["nowhere"]).
    repeat (split; [reflexivity|]).
    split; [left; reflexivity|reflexivity].
  - apply (proj2 (main_exits_on_missing_input _ _ _ _)).
    repeat (split; [reflexivity|]). left. exists 2, [].
    repeat split.
Defined.

(* ================================================================= *)
(** ** Runs that end early *)

(** The scan is drawn one path at a time: when [is_file] is denied on the
    second image, the first one is already watermarked, saved and
    reported; the exception leaves [main] and no summary is printed. *)
Example scan_raises_after_first_file :
  main (demo_env_with (ParsedArgs demo_args) (fun _ _ => None) denied) world0
  = Uncaught
      {| world :=
           fst (process_image_file demo_env
                  {| made_dirs := [abs_path ["pics"; "watermarked"]];
                     saved := [] |}
                  (abs_path ["pics"; "a.jpg"])
                  (abs_path ["pics"; "watermarked"; "a.jpg"]) demo_params);
         printed := [line_ok (abs_path ["pics"; "a.jpg"])
                       (abs_path ["pics"; "watermarked"; "a.jpg"])];
         total := 1; ok := 1 |}
      (OSError "[Errno 13] Permission denied").
Proof. vm_compute. reflexivity. Qed.

(** When every [print] raises: the first image is saved and counted as a
    success, the [print] of line 146 raises inside the [try], and the
    [print] of the handler raises in turn and ends the run. *)
Example print_raises_in_the_handler :
  exists r,
    main (demo_env_with (ParsedArgs demo_args) broken_pipe (fun _ => None))
      world0
    = Uncaught r (OSError "[Errno 32] Broken pipe") /\
    printed r = [] /\ total r = 1 /\ ok r = 1 /\
    map saved_path (saved (world r))
      = [abs_path ["pics"; "watermarked"; "a.jpg"]].
Proof.
  eexists. split; [vm_compute; reflexivity|]. repeat split.
Qed.
